(** * Yandex Cloud Monitoring output plugin: model and properties

    A shallow embedding of
    [plugins/outputs/yandex_cloud_monitoring/yandex_cloud_monitoring.go].

    Conventions of the embedding:
    - Go strings and byte slices are [string]; a Go error is its message.
    - A Go [map[string]string] is a [gmap string string].  A [range] loop
      over a map visits its entries in an order chosen by the runtime, so
      a function that ranges over a map takes the visiting order as an
      argument: some permutation of the entries of the map.
    - A slice or map that may be [nil] is an [option], [None] being [nil].
    - [time.Time] is an integer number of nanoseconds since the zero
      [time.Time]; [time.Duration] and [int] are 64-bit signed integers
      with wrap-around.
    - The outside world (the clock, the HTTP transport, the runtime's choice
      of map iteration order) is a family of oracles indexed by the number
      of calls made so far.  The plugin runs in a state-and-error monad
      over a state that holds the receiver's fields, the call counters, the
      trace of HTTP round trips and the log.
    - The model covers the plugin between [Init] and [Close], where
      [a.client] is not [nil]. *)

From stdpp Require Import gmap strings list fin_maps pretty sorting.

Local Open Scope string_scope.
Local Open Scope Z_scope.

(** ** Label translation *)

(** One iteration of the loop of [replaceReservedTagNames]. *)
Definition range_step (newTags : gmap string string) (tag : string * string)
  : gmap string string :=
  let '(tagName, tagValue) := tag in
  if bool_decide (tagName = "name")
  then <["_name" := tagValue]> newTags
  else <[tagName := tagValue]> newTags.

(** [replaceReservedTagNames], run over the entries of [tagNames] in the
    order [order] in which the [range] loop visits them. *)
Definition replaceReservedTagNames (order : list (string * string))
  : gmap string string :=
  foldl range_step ∅ order.

(** [order] is a possible visiting order of the map [tagNames]. *)
Definition range_of (tagNames : gmap string string)
    (order : list (string * string)) : Prop :=
  order ≡ₚ map_to_list tagNames.

(** The key under which a tag is stored in the output. *)
Definition label_key (tagName : string) : string :=
  if bool_decide (tagName = "name") then "_name" else tagName.

(** ** Values, errors, requests *)

Definition error : Type := string.

Inductive result (A : Type) : Type :=
| Ok (a : A)
| Err (err : error).
Arguments Ok {A} a.
Arguments Err {A} err.

Definition is_Err {A} (r : result A) : bool :=
  match r with Ok _ => false | Err _ => true end.

(** An [*http.Request]: method, URL as given to [http.NewRequest], the
    query parameters added to it, the header and the body. *)
Record Request : Type := mkRequest {
  req_Method : string;
  req_URL : string;
  req_Query : list (string * string);
  req_Header : list (string * string);
  req_Body : string;
}.

(** An [*http.Response], with the outcome of [io.ReadAll(resp.Body)]. *)
Record Response : Type := mkResponse {
  StatusCode : Z;
  Status : string;
  resp_Body : result string;
}.

(** [req.Header.Set(key, value)]. *)
Definition Header_Set (req : Request) (key value : string) : Request :=
  mkRequest (req_Method req) (req_URL req) (req_Query req)
    ((key, value) :: filter (λ kv, kv.1 ≠ key) (req_Header req))
    (req_Body req).

(** [q := req.URL.Query(); q.Add(key, value); req.URL.RawQuery = q.Encode()]. *)
Definition Query_Add (req : Request) (key value : string) : Request :=
  mkRequest (req_Method req) (req_URL req) (req_Query req ++ [(key, value)])
    (req_Header req) (req_Body req).

Definition Header_Get (req : Request) (key : string) : option string :=
  snd <$> head (filter (λ kv, kv.1 = key) (req_Header req)).

(** [type metadataIamToken struct]. *)
Record metadataIamToken : Type := mkMetadataIamToken {
  AccessToken : string;
  ExpiresIn : Z;
  TokenType : string;
}.

(** ** Time *)

Definition wrap64 (x : Z) : Z := (x + 2 ^ 63) mod 2 ^ 64 - 2 ^ 63.

(** [time.Second], in nanoseconds. *)
Definition Second : Z := 1000000000.

(** [int(x)] for an [int64] [x], and [time.Duration(x)] for an [int] [x]. *)
Definition int_of_int64 (x : Z) : Z := wrap64 x.
Definition Duration (x : Z) : Z := wrap64 x.

(** Multiplication of two [time.Duration]s. *)
Definition Duration_mul (d1 d2 : Z) : Z := wrap64 (d1 * d2).

(** [t.Add(d)] and [t.Before(u)]. *)
Definition Time_Add (t d : Z) : Z := t + d.
Definition Time_Before (t u : Z) : bool := bool_decide (t < u).

Definition defaultRequestTimeout : Z := Second * 20.
Definition defaultEndpoint : string :=
  "https://monitoring.api.cloud.yandex.net/monitoring/v2/data/write".
Definition defaultMetadataTokenURL : string :=
  "http://169.254.169.254/computeMetadata/v1/instance/service-accounts/default/token".
Definition defaultMetadataFolderURL : string :=
  "http://169.254.169.254/computeMetadata/v1/instance/vendor/folder-id".

(** ** The receiver and the world *)

(** [type YandexCloudMonitoring struct], without [Log], [client] and
    [MetricOutsideWindow]. *)
Record YandexCloudMonitoring : Type := mkPlugin {
  Timeout : Z;
  Endpoint : string;
  Service : string;
  metadataTokenURL : string;
  metadataFolderURL : string;
  folderID : string;
  iamToken : string;
  iamTokenExpirationTime : Z;
}.

Inductive Level : Type := LDebug | LInfo | LError.

Record World : Type := mkWorld {
  plugin : YandexCloudMonitoring;
  (** number of calls of [time.Now] so far *)
  clock_reads : nat;
  (** number of [range] loops over a map so far *)
  range_calls : nat;
  (** the HTTP round trips so far, oldest first *)
  trace : list (Request * result Response);
  (** the entries written to [a.Log] so far, oldest first *)
  log : list (Level * string);
}.

Definition with_plugin (w : World) (a : YandexCloudMonitoring) : World :=
  mkWorld a (clock_reads w) (range_calls w) (trace w) (log w).

(** ** The monad: Go statements that may return an error *)

Definition M (A : Type) : Type := World → result A * World.

Definition ret {A} (a : A) : M A := λ w, (Ok a, w).
Definition fail {A} (err : error) : M A := λ w, (Err err, w).
Definition bind {A B} (c : M A) (k : A → M B) : M B :=
  λ w, match c w with
       | (Ok a, w') => k a w'
       | (Err err, w') => (Err err, w')
       end.
Definition lift {A} (r : result A) : M A := λ w, (r, w).
Definition gets {A} (f : YandexCloudMonitoring → A) : M A :=
  λ w, (Ok (f (plugin w)), w).
Definition modify (f : YandexCloudMonitoring → YandexCloudMonitoring) : M unit :=
  λ w, (Ok tt, with_plugin w (f (plugin w))).

Notation "x <- c1 ;; c2" := (bind c1 (λ x, c2))
  (at level 100, c1 at next level, right associativity).
Notation "c1 ;;; c2" := (bind c1 (λ _, c2))
  (at level 100, right associativity).

Definition set_Timeout (v : Z) : M unit :=
  modify (λ a, mkPlugin v (Endpoint a) (Service a) (metadataTokenURL a)
                 (metadataFolderURL a) (folderID a) (iamToken a)
                 (iamTokenExpirationTime a)).
Definition set_Endpoint (v : string) : M unit :=
  modify (λ a, mkPlugin (Timeout a) v (Service a) (metadataTokenURL a)
                 (metadataFolderURL a) (folderID a) (iamToken a)
                 (iamTokenExpirationTime a)).
Definition set_Service (v : string) : M unit :=
  modify (λ a, mkPlugin (Timeout a) (Endpoint a) v (metadataTokenURL a)
                 (metadataFolderURL a) (folderID a) (iamToken a)
                 (iamTokenExpirationTime a)).
Definition set_metadataTokenURL (v : string) : M unit :=
  modify (λ a, mkPlugin (Timeout a) (Endpoint a) (Service a) v
                 (metadataFolderURL a) (folderID a) (iamToken a)
                 (iamTokenExpirationTime a)).
Definition set_metadataFolderURL (v : string) : M unit :=
  modify (λ a, mkPlugin (Timeout a) (Endpoint a) (Service a)
                 (metadataTokenURL a) v (folderID a) (iamToken a)
                 (iamTokenExpirationTime a)).
Definition set_folderID (v : string) : M unit :=
  modify (λ a, mkPlugin (Timeout a) (Endpoint a) (Service a)
                 (metadataTokenURL a) (metadataFolderURL a) v (iamToken a)
                 (iamTokenExpirationTime a)).
Definition set_iamToken (v : string) : M unit :=
  modify (λ a, mkPlugin (Timeout a) (Endpoint a) (Service a)
                 (metadataTokenURL a) (metadataFolderURL a) (folderID a) v
                 (iamTokenExpirationTime a)).
Definition set_iamTokenExpirationTime (v : Z) : M unit :=
  modify (λ a, mkPlugin (Timeout a) (Endpoint a) (Service a)
                 (metadataTokenURL a) (metadataFolderURL a) (folderID a)
                 (iamToken a) v).

(** [a.Log.Debugf], [a.Log.Infof], [a.Log.Errorf], the message formatted. *)
Definition Logf (lvl : Level) (msg : string) : M unit :=
  λ w, (Ok tt, mkWorld (plugin w) (clock_reads w) (range_calls w) (trace w)
                 (log w ++ [(lvl, msg)])).

(** The round trips made between the worlds [w] and [w']. *)
Definition events_of (w w' : World) : list (Request * result Response) :=
  drop (length (trace w)) (trace w').

(** The log entries written between the worlds [w] and [w']. *)
Definition logged_of (w w' : World) : list (Level * string) :=
  drop (length (log w)) (log w').

Definition is_call (method url : string) (ev : Request * result Response)
  : bool :=
  bool_decide (req_Method ev.1 = method) && bool_decide (req_URL ev.1 = url).

Definition count_calls (method url : string)
    (evs : list (Request * result Response)) : nat :=
  length (filter (λ ev, is_call method url ev = true) evs).

(** [s] occurs in [msg]. *)
Definition includes (msg s : string) : Prop :=
  ∃ before after, msg = before ++ s ++ after.

(** The double quote and the line feed. *)
Definition dquote : string := String (Ascii.ascii_of_nat 34) EmptyString.
Definition newline : string := String (Ascii.ascii_of_nat 10) EmptyString.

(** ** The host agent and the outside world *)

(** What the plugin consumes: the host agent's helpers, the library
    functions it calls, and the oracles of the outside world. *)
Class Host : Type := mkHost {
  (** the value of a metric field (an [interface{}]), and [float64] *)
  FieldValue : Type;
  float64 : Type;
  (** [internal.ToFloat64] *)
  ToFloat64 : FieldValue → result float64;
  (** [encoding/json]: the encodings of a string and of a [float64] (which
      fails on NaN and the infinities), and [json.Unmarshal] into a
      [metadataIamToken] *)
  json_string : string → string;
  json_float : float64 → result string;
  json_Unmarshal : string → result metadataIamToken;
  (** [t.Format(time.RFC3339)] *)
  Format_RFC3339 : Z → string;
  (** the error of [url.Parse] on a URL, if any: [http.NewRequest] fails
      with it *)
  url_Parse_error : string → option error;
  (** the reading of the [n]-th call of [time.Now] *)
  clock : nat → Z;
  (** the outcome of the [n]-th call of [a.client.Do] *)
  transport : nat → Request → result Response;
  (** the order in which the [n]-th [range] loop over a map visits it *)
  range_order : nat → gmap string string → list (string * string);
  range_order_ok : ∀ n tagNames, range_of tagNames (range_order n tagNames);
}.

(** ** The plugin *)

Section Plugin.

Context `{Host}.

(** [type yandexCloudMonitoringMetric struct]. *)
Record yandexCloudMonitoringMetric : Type := mkMetric {
  Name : string;
  Labels : option (gmap string string);
  MetricType : string;
  TS : string;
  Value : float64;
}.

(** [type yandexCloudMonitoringMessage struct]. *)
Record yandexCloudMonitoringMessage : Type := mkMessage {
  msg_TS : string;
  msg_Labels : option (gmap string string);
  msg_Metrics : option (list yandexCloudMonitoringMetric);
}.

(** A [telegraf.Field] and a [telegraf.Metric], through [Name()],
    [Tags()], [FieldList()] and [Time()]. *)
Record Field : Type := mkField {
  Key : string;
  f_Value : FieldValue;
}.

Record Metric : Type := mkTelegrafMetric {
  m_Name : string;
  m_Tags : gmap string string;
  m_FieldList : list Field;
  m_Time : Z;
}.

(** *** The world's operations *)

Definition time_Now : M Z :=
  λ w, (Ok (clock (clock_reads w)),
        mkWorld (plugin w) (S (clock_reads w)) (range_calls w) (trace w) (log w)).

Definition client_Do (req : Request) : M Response :=
  λ w, let outcome := transport (length (trace w)) req in
       (outcome,
        mkWorld (plugin w) (clock_reads w) (range_calls w)
          (trace w ++ [(req, outcome)]) (log w)).

Definition range_map (tagNames : gmap string string)
  : M (list (string * string)) :=
  λ w, (Ok (range_order (range_calls w) tagNames),
        mkWorld (plugin w) (clock_reads w) (S (range_calls w)) (trace w) (log w)).

Definition http_NewRequest (method url body : string) : result Request :=
  match url_Parse_error url with
  | Some err => Err err
  | None => Ok (mkRequest method url [] [] body)
  end.

(** [append(s, x)]. *)
Definition append {A} (s : option (list A)) (x : A) : option (list A) :=
  Some (default [] s ++ [x])%list.

(** *** [encoding/json] on the message *)

Definition key_le (x y : string * string) : Prop := String.leb x.1 y.1 = true.

#[local] Instance key_le_dec x y : Decision (key_le x y).
Proof. unfold key_le. apply _. Defined.

Definition json_member (key value : string) : string :=
  dquote ++ key ++ dquote ++ ":" ++ value.

(** A map is encoded with its keys sorted; a [nil] map is [null]. *)
Definition json_map (m : option (gmap string string)) : string :=
  match m with
  | None => "null"
  | Some m =>
      "{" ++ String.concat ","
               ((λ kv, json_string kv.1 ++ ":" ++ json_string kv.2)
                  <$> merge_sort key_le (map_to_list m)) ++ "}"
  end.

Definition json_metric (p : yandexCloudMonitoringMetric) : result string :=
  match json_float (Value p) with
  | Err err => Err err
  | Ok value =>
      Ok ("{" ++ String.concat ","
                   ([json_member "name" (json_string (Name p));
                     json_member "labels" (json_map (Labels p))]
                    ++ (if bool_decide (MetricType p = "") then []
                        else [json_member "type" (json_string (MetricType p))])
                    ++ (if bool_decide (TS p = "") then []
                        else [json_member "ts" (json_string (TS p))])
                    ++ [json_member "value" value]) ++ "}")
  end.

Fixpoint json_metrics (ps : list yandexCloudMonitoringMetric)
  : result (list string) :=
  match ps with
  | [] => Ok []
  | p :: ps =>
      match json_metric p with
      | Err err => Err err
      | Ok s => match json_metrics ps with
                | Err err => Err err
                | Ok ss => Ok (s :: ss)
                end
      end
  end.

(** A [nil] slice is encoded as [null]. *)
Definition json_slice (ps : option (list yandexCloudMonitoringMetric))
  : result string :=
  match ps with
  | None => Ok "null"
  | Some ps => match json_metrics ps with
               | Err err => Err err
               | Ok ss => Ok ("[" ++ String.concat "," ss ++ "]")
               end
  end.

Definition map_is_empty (m : option (gmap string string)) : bool :=
  match m with
  | None => true
  | Some m => bool_decide (m = ∅)
  end.

(** [json.Marshal] on a [yandexCloudMonitoringMessage]. *)
Definition json_Marshal (msg : yandexCloudMonitoringMessage) : result string :=
  match json_slice (msg_Metrics msg) with
  | Err err => Err err
  | Ok metrics =>
      Ok ("{" ++ String.concat ","
                   ((if bool_decide (msg_TS msg = "") then []
                     else [json_member "ts" (json_string (msg_TS msg))])
                    ++ (if map_is_empty (msg_Labels msg) then []
                        else [json_member "labels" (json_map (msg_Labels msg))])
                    ++ [json_member "metrics" metrics]) ++ "}")
  end.

(** *** The methods *)

Definition Init : M unit :=
  timeout <- gets Timeout ;;
  (if bool_decide (timeout ≤ 0) then set_Timeout defaultRequestTimeout
   else ret tt) ;;;
  endpoint <- gets Endpoint ;;
  (if bool_decide (endpoint = "") then set_Endpoint defaultEndpoint
   else ret tt) ;;;
  service <- gets Service ;;
  (if bool_decide (service = "") then set_Service "custom" else ret tt) ;;;
  tokenURL <- gets metadataTokenURL ;;
  (if bool_decide (tokenURL = "")
   then set_metadataTokenURL defaultMetadataTokenURL else ret tt) ;;;
  folderURL <- gets metadataFolderURL ;;
  (if bool_decide (folderURL = "")
   then set_metadataFolderURL defaultMetadataFolderURL else ret tt) ;;;
  ret tt.

(** The request that [getResponseFromMetadata] sends. *)
Definition metadataRequest (metadataURL : string) : Request :=
  Header_Set (mkRequest "GET" metadataURL [] [] "") "Metadata-Flavor" "Google".

Definition getResponseFromMetadata (metadataURL : string) : M string :=
  match http_NewRequest "GET" metadataURL "" with
  | Err err => fail ("error creating request: " ++ err)
  | Ok req =>
      let req := Header_Set req "Metadata-Flavor" "Google" in
      resp <- client_Do req ;;
      body <- lift (resp_Body resp) ;;
      if bool_decide (StatusCode resp >= 300) || bool_decide (StatusCode resp < 200)
      then fail ("unable to fetch instance metadata: [" ++ metadataURL ++ "] "
                 ++ pretty (StatusCode resp))
      else ret body
  end.

Definition Connect : M unit :=
  folderURL <- gets metadataFolderURL ;;
  Logf LDebug ("Getting folder ID in " ++ folderURL) ;;;
  body <- getResponseFromMetadata folderURL ;;
  set_folderID body ;;;
  id <- gets folderID ;;
  if bool_decide (id = "")
  then fail ("unable to fetch folder id from URL " ++ folderURL ++ ": %!w(<nil>)")
  else
    endpoint <- gets Endpoint ;;
    Logf LInfo ("Writing to Yandex.Cloud Monitoring URL: " ++ endpoint) ;;;
    Logf LInfo ("FolderID: " ++ id) ;;;
    ret tt.

Definition getIAMTokenFromMetadata : M (string * Z) :=
  tokenURL <- gets metadataTokenURL ;;
  Logf LDebug ("Getting new IAM token in " ++ tokenURL) ;;;
  body <- getResponseFromMetadata tokenURL ;;
  metadata <- lift (json_Unmarshal body) ;;
  if bool_decide (AccessToken metadata = "") || bool_decide (ExpiresIn metadata = 0)
  then fail ("unable to fetch authentication credentials " ++ tokenURL
             ++ ": %!w(<nil>)")
  else ret (AccessToken metadata, int_of_int64 (ExpiresIn metadata)).

(** Lines 215-223 of [send]: the token is fetched when none is held or
    the held one has expired. *)
Definition refreshToken : M unit :=
  expiration <- gets iamTokenExpirationTime ;;
  now <- time_Now ;;
  let isTokenExpired := Time_Before expiration now in
  token <- gets iamToken ;;
  if bool_decide (token = "") || isTokenExpired
  then
    fetched <- getIAMTokenFromMetadata ;;
    let '(token, expiresIn) := fetched in
    now <- time_Now ;;
    set_iamTokenExpirationTime
      (Time_Add now (Duration_mul (Duration expiresIn) Second)) ;;;
    set_iamToken token
  else ret tt.

(** Lines 226-237 of [send]: the request is sent and the outcome read. *)
Definition deliver (req : Request) : M unit :=
  resp <- client_Do req ;;
  if is_Err (resp_Body resp)
     || bool_decide (StatusCode resp < 200) || bool_decide (StatusCode resp > 299)
  then fail ("failed to write batch: [" ++ pretty (StatusCode resp) ++ "] "
             ++ Status resp)
  else ret tt.

Definition send (body : string) : M unit :=
  endpoint <- gets Endpoint ;;
  req <- lift (http_NewRequest "POST" endpoint body) ;;
  id <- gets folderID ;;
  let req := Query_Add req "folderId" id in
  service <- gets Service ;;
  let req := Query_Add req "service" service in
  let req := Header_Set req "Content-Type" "application/json" in
  refreshToken ;;;
  token <- gets iamToken ;;
  let req := Header_Set req "Authorization" ("Bearer " ++ token) in
  deliver req.

(** The inner loop of [Write], over the fields of the metric [m]. *)
Fixpoint range_fields (m : Metric) (fields : list Field)
    (yandexCloudMonitoringMetrics : option (list yandexCloudMonitoringMetric))
  : M (option (list yandexCloudMonitoringMetric)) :=
  match fields with
  | [] => ret yandexCloudMonitoringMetrics
  | field :: fields =>
      match ToFloat64 (f_Value field) with
      | Err err =>
          Logf LError ("Skipping value: " ++ err) ;;;
          range_fields m fields yandexCloudMonitoringMetrics
      | Ok value =>
          order <- range_map (m_Tags m) ;;
          range_fields m fields
            (append yandexCloudMonitoringMetrics
               (mkMetric (m_Name m ++ "_" ++ Key field)
                  (Some (replaceReservedTagNames order))
                  ""
                  (Format_RFC3339 (m_Time m))
                  value))
      end
  end.

(** The outer loop of [Write], over the metrics. *)
Fixpoint range_metrics (metrics : list Metric)
    (yandexCloudMonitoringMetrics : option (list yandexCloudMonitoringMetric))
  : M (option (list yandexCloudMonitoringMetric)) :=
  match metrics with
  | [] => ret yandexCloudMonitoringMetrics
  | m :: metrics =>
      yandexCloudMonitoringMetrics <-
        range_fields m (m_FieldList m) yandexCloudMonitoringMetrics ;;
      range_metrics metrics yandexCloudMonitoringMetrics
  end.

Definition Write (metrics : list Metric) : M unit :=
  yandexCloudMonitoringMetrics <- range_metrics metrics None ;;
  body <- lift (json_Marshal (mkMessage "" None yandexCloudMonitoringMetrics)) ;;
  let body := body ++ newline in
  send body.

(** The request that [send] hands to [a.client.Do], given the receiver
    at the start of [send] and the token held after lines 215-223. *)
Definition postRequest (a : YandexCloudMonitoring) (body token : string)
  : Request :=
  Header_Set
    (Header_Set
       (Query_Add
          (Query_Add (mkRequest "POST" (Endpoint a) [] [] body)
             "folderId" (folderID a))
          "service" (Service a))
       "Content-Type" "application/json")
    "Authorization" ("Bearer " ++ token).

(** The error that [send] returns for the outcome of the POST. *)
Definition delivery_result (outcome : result Response) : result unit :=
  match outcome with
  | Err err => Err err
  | Ok resp =>
      if is_Err (resp_Body resp)
         || bool_decide (StatusCode resp < 200)
         || bool_decide (StatusCode resp > 299)
      then Err ("failed to write batch: [" ++ pretty (StatusCode resp) ++ "] "
                ++ Status resp)
      else Ok tt
  end.

(** [send] in the world [w] finds no usable token: none is held, or the
    held one expired before the reading of the clock. *)
Definition needs_refresh (w : World) : Prop :=
  iamToken (plugin w) = ""
  ∨ iamTokenExpirationTime (plugin w) < clock (clock_reads w).

(** The body that [Write] sends when no point was translated. *)
Definition null_batch_body : string :=
  "{" ++ dquote ++ "metrics" ++ dquote ++ ":null}" ++ newline.

(** The field's value coerces to [float64]. *)
Definition coercible (field : Field) : bool :=
  negb (is_Err (ToFloat64 (f_Value field))).

(** A sequence of publishes, whatever each of them returns. *)
Fixpoint run_writes (batches : list (list Metric)) (w : World) : World :=
  match batches with
  | [] => w
  | metrics :: batches => run_writes batches (Write metrics w).2
  end.

(** *** Vocabulary of the properties *)

(** What a computation may do to the world when all it does is call the
    metadata service at [url] at most once and write to the log. *)
Definition metadata_step (url : string) (w w' : World) : Prop :=
  plugin w' = plugin w
  ∧ clock_reads w' = clock_reads w
  ∧ range_calls w' = range_calls w
  ∧ (∃ entries, log w' = (log w ++ entries)%list
       ∧ ∀ entry, entry ∈ entries →
           entry = (LDebug, "Getting new IAM token in " ++ url))
  ∧ (trace w' = trace w
     ∨ trace w' = (trace w ++ [(metadataRequest url,
                               transport (length (trace w)) (metadataRequest url))])%list).

(** The token and its expiration as [send] stores them. *)
Definition store_token (token : string) (expiration : Z) (w : World) : World :=
  (set_iamToken token (set_iamTokenExpirationTime expiration w).2).2.

(** Everything of the receiver but the credential. *)
Definition same_config (a a' : YandexCloudMonitoring) : Prop :=
  Timeout a' = Timeout a ∧ Endpoint a' = Endpoint a ∧ Service a' = Service a
  ∧ metadataTokenURL a' = metadataTokenURL a
  ∧ metadataFolderURL a' = metadataFolderURL a
  ∧ folderID a' = folderID a.

(** The fields of a metric that become points, and those that are skipped. *)
Definition numeric_fields (m : Metric) : list Field :=
  filter (λ field, coercible field = true) (m_FieldList m).

Definition skipped_fields (m : Metric) : list Field :=
  filter (λ field, coercible field = false) (m_FieldList m).

(** The diagnostic that [Write] logs for a field, if it skips it. *)
Definition skip_entry (field : Field) : option (Level * string) :=
  match ToFloat64 (f_Value field) with
  | Ok _ => None
  | Err err => Some (LError, "Skipping value: " ++ err)
  end.

(** The slice after [points] were appended to it one by one. *)
Definition extend {A} (s : option (list A)) (points : list A)
  : option (list A) :=
  match points with
  | [] => s
  | _ => Some (default [] s ++ points)%list
  end.

(** The point that [Write] makes of a field of [m] is one of [m]'s. *)
Definition point_of (m : Metric) (p : yandexCloudMonitoringMetric) : Prop :=
  (∃ order, range_of (m_Tags m) order
            ∧ Labels p = Some (replaceReservedTagNames order))
  ∧ TS p = Format_RFC3339 (m_Time m)
  ∧ MetricType p = "".

(** The world after a loop of [Write]: only the log and the count of
    [range] loops have changed. *)
Definition translation_step (w w' : World) (entries : list (Level * string))
  : Prop :=
  plugin w' = plugin w ∧ clock_reads w' = clock_reads w
  ∧ trace w' = trace w ∧ log w' = (log w ++ entries)%list.

(** The requests a publish makes: the GET of the token, and the POST to
    the endpoint with the folder identifier and the service. *)
Definition publish_call (a : YandexCloudMonitoring) (req : Request) : Prop :=
  req = metadataRequest (metadataTokenURL a)
  ∨ (req_Method req = "POST" ∧ req_URL req = Endpoint a
     ∧ req_Query req = [("folderId", folderID a); ("service", Service a)]).

(** The log entries a publish writes. *)
Definition publish_entry (a : YandexCloudMonitoring) (entry : Level * string)
  : Prop :=
  entry.1 = LError
  ∨ entry = (LDebug, "Getting new IAM token in " ++ metadataTokenURL a).

Definition publish_step (w w' : World) : Prop :=
  same_config (plugin w) (plugin w')
  ∧ (∃ evs, trace w' = (trace w ++ evs)%list
       ∧ ∀ ev, ev ∈ evs → publish_call (plugin w) ev.1)
  ∧ (∃ entries, log w' = (log w ++ entries)%list
       ∧ ∀ entry, entry ∈ entries → publish_entry (plugin w) entry).

End Plugin.

(** ** Further vocabulary *)

(** The plugin as the registry constructs it ([&YandexCloudMonitoring{}]),
    with the three settings the configuration may have filled in. *)
Definition registered_plugin (timeout : Z) (endpoint service : string)
  : YandexCloudMonitoring :=
  mkPlugin timeout endpoint service "" "" "" "" 0.

(** The receiver with another folder identifier. *)
Definition with_folderID (a : YandexCloudMonitoring) (id : string)
  : YandexCloudMonitoring :=
  mkPlugin (Timeout a) (Endpoint a) (Service a) (metadataTokenURL a)
    (metadataFolderURL a) id (iamToken a) (iamTokenExpirationTime a).

(** The tag set without [name], and with [value] under [_name]. *)
Definition renamed (tagNames : gmap string string) (value : string)
  : gmap string string :=
  <["_name" := value]> (delete "name" tagNames).

(** ** Example hosts, worlds and metrics *)

(** A tag set holding both [name] and [_name], with different values. *)
Definition colliding_tags : gmap string string :=
  <["name" := "core0"]> (<["_name" := "legacy"]> ∅).

(** The tag set of [cpu{host=vm1,name=core0}]. *)
Definition cpu_tags : gmap string string :=
  <["host" := "vm1"]> (<["name" := "core0"]> ∅).

(** A field value is a number or a string; only numbers coerce. *)
Definition example_ToFloat64 (value : Z + string) : result Z :=
  match value with
  | inl number => Ok number
  | inr text => Err ("cannot convert " ++ text ++ " to float64")
  end.

(** A decoder that knows four metadata responses. *)
Definition example_Unmarshal (payload : string) : result metadataIamToken :=
  if bool_decide (payload = "t1/3600")
  then Ok (mkMetadataIamToken "t1" 3600 "Bearer")
  else if bool_decide (payload = "t1/-1")
  then Ok (mkMetadataIamToken "t1" (-1) "Bearer")
  else if bool_decide (payload = "/3600")
  then Ok (mkMetadataIamToken "" 3600 "Bearer")
  else if bool_decide (payload = "t1/0")
  then Ok (mkMetadataIamToken "t1" 0 "Bearer")
  else Err "invalid character".

(** A metadata service that answers the folder URL with [b1gfolder] and
    any other GET with [payload], and a backend that answers every POST
    with the status [code]. *)
Definition example_transport (payload : string) (code : Z) (status : string)
    (n : nat) (req : Request) : result Response :=
  if bool_decide (req_Method req = "GET")
  then
    if bool_decide (req_URL req = defaultMetadataFolderURL)
    then Ok (mkResponse 200 "200 OK" (Ok "b1gfolder"))
    else Ok (mkResponse 200 "200 OK" (Ok payload))
  else Ok (mkResponse code status (Ok EmptyString)).

Definition example_host (clock : nat → Z)
    (transport : nat → Request → result Response) : Host :=
  mkHost (Z + string) Z example_ToFloat64
    (λ s, dquote ++ s ++ dquote) (λ value, Ok (pretty value))
    example_Unmarshal pretty (λ _, None) clock transport
    (λ _ tagNames, map_to_list tagNames)
    (λ _ tagNames, Permutation_refl (map_to_list tagNames)).

(** The clock stands at 1000 s; the metadata service hands out [t1] for
    3600 s; the backend accepts. *)
Definition steady_host : Host :=
  example_host (λ _, 1000 * Second) (example_transport "t1/3600" 200 "200 OK").

(** The clock reads 1000 s twice, and 4600 s from then on. *)
Definition expiry_host : Host :=
  example_host (λ n, if bool_decide (n ≤ 1)%nat then 1000 * Second
                     else 4600 * Second)
    (example_transport "t1/3600" 200 "200 OK").

(** The metadata service hands out [t1] with the lifetime -1. *)
Definition negative_host : Host :=
  example_host (λ _, 1000 * Second) (example_transport "t1/-1" 200 "200 OK").

(** The metadata service hands out an empty token. *)
Definition empty_token_host : Host :=
  example_host (λ _, 1000 * Second) (example_transport "/3600" 200 "200 OK").

(** The backend answers the POST with 200, and the body of the answer
    cannot be read. *)
Definition unreadable_body_host : Host :=
  example_host (λ _, 1000 * Second)
    (λ _ req,
       if bool_decide (req_Method req = "GET")
       then Ok (mkResponse 200 "200 OK" (Ok "t1/3600"))
       else Ok (mkResponse 200 "200 OK" (Err "unexpected EOF"))).

(** The backend answers 404. *)
Definition not_found_host : Host :=
  example_host (λ _, 1000 * Second)
    (example_transport "t1/3600" 404 "404 Not Found").

(** The plugin after [Init] with an empty configuration, and the world
    before any call. *)
Definition initial_plugin : YandexCloudMonitoring :=
  mkPlugin defaultRequestTimeout defaultEndpoint "custom"
    defaultMetadataTokenURL defaultMetadataFolderURL "" "" 0.

Definition initial_world : World := mkWorld initial_plugin 0 0 [] [].

(** The world in which [t1] is held until 4600 s. *)
Definition token_world : World :=
  mkWorld
    (mkPlugin defaultRequestTimeout defaultEndpoint "custom"
       defaultMetadataTokenURL defaultMetadataFolderURL "b1gfolder" "t1"
       (4600 * Second))
    0 0 [] [].

(** [cpu{host=vm1,name=core0}] with the fields [usage_idle], [comment] (a
    string) and [usage_user], for an example host. *)
Definition cpu_metric (clock : nat → Z)
    (transport : nat → Request → result Response)
  : Metric (H := example_host clock transport) :=
  mkTelegrafMetric (H := example_host clock transport) "cpu" cpu_tags
    [mkField (H := example_host clock transport) "usage_idle" (inl 99);
     mkField (H := example_host clock transport) "comment" (inr "idle");
     mkField (H := example_host clock transport) "usage_user" (inl 1)]
    1686049850.

(** A metric whose only field is a string. *)
Definition text_metric (clock : nat → Z)
    (transport : nat → Request → result Response)
  : Metric (H := example_host clock transport) :=
  mkTelegrafMetric (H := example_host clock transport) "build" cpu_tags
    [mkField (H := example_host clock transport) "version" (inr "1.27")]
    1686049850.

(** A host like the example hosts whose URL parser rejects [://bad] and
    whose encoder has no encoding for a negative value (standing for NaN). *)
Definition strict_host (clock : nat → Z)
    (transport : nat → Request → result Response) : Host :=
  mkHost (Z + string) Z example_ToFloat64
    (λ s, dquote ++ s ++ dquote)
    (λ value, if bool_decide (value < 0)
              then Err "json: unsupported value: NaN"
              else Ok (pretty value))
    example_Unmarshal pretty
    (λ url, if bool_decide (url = "://bad")
            then Some "missing protocol scheme" else None)
    clock transport
    (λ _ tagNames, map_to_list tagNames)
    (λ _ tagNames, Permutation_refl (map_to_list tagNames)).

(** The clock stands at 1000 s, the metadata service hands out [t1] for
    3600 s and the backend accepts, under the strict parser and encoder. *)
Definition strict_steady_host : Host :=
  strict_host (λ _, 1000 * Second) (example_transport "t1/3600" 200 "200 OK").

(** The metadata service answers every request with the status 503. *)
Definition unavailable_host : Host :=
  example_host (λ _, 1000 * Second)
    (λ _ _, Ok (mkResponse 503 "503 Service Unavailable" (Ok "try later"))).

(** The world in which [t1] is held and the endpoint is [://bad]. *)
Definition bad_endpoint_world : World :=
  mkWorld
    (mkPlugin defaultRequestTimeout "://bad" "custom"
       defaultMetadataTokenURL defaultMetadataFolderURL "b1gfolder" "t1"
       (4600 * Second))
    0 0 [] [].

(** The world of a plugin fresh from the registry, nothing configured. *)
Definition registered_world : World :=
  mkWorld (registered_plugin 0 EmptyString EmptyString) 0 0 [] [].

(** A metric with a value that the strict encoder does not encode. *)
Definition nan_metric (clock : nat → Z)
    (transport : nat → Request → result Response)
  : Metric (H := strict_host clock transport) :=
  mkTelegrafMetric (H := strict_host clock transport) "disk" cpu_tags
    [mkField (H := strict_host clock transport) "used" (inl 7);
     mkField (H := strict_host clock transport) "ratio" (inl (-1))]
    1686049850.

(** ** Properties of the label translation *)

Lemma range_step_insert newTags tagName tagValue :
  range_step newTags (tagName, tagValue)
  = <[label_key tagName := tagValue]> newTags.
Proof. unfold range_step, label_key. by case_bool_decide. Qed.

Lemma replaceReservedTagNames_snoc order tag :
  replaceReservedTagNames (order ++ [tag])
  = range_step (replaceReservedTagNames order) tag.
Proof. unfold replaceReservedTagNames. by rewrite foldl_app. Qed.

Lemma label_key_not_name tagName : label_key tagName ≠ "name".
Proof. unfold label_key. case_bool_decide; [done | congruence]. Qed.

Lemma label_key_id tagName : tagName ≠ "name" → label_key tagName = tagName.
Proof. unfold label_key. by case_bool_decide. Qed.

Lemma label_key_eq k1 k2 :
  label_key k1 = label_key k2 →
  k1 = k2 ∨ (k1 = "name" ∧ k2 = "_name") ∨ (k1 = "_name" ∧ k2 = "name").
Proof. unfold label_key. repeat case_bool_decide; naive_solver. Qed.

(** Every output label comes from some visited tag. *)
Lemma replaceReservedTagNames_sound order key value :
  replaceReservedTagNames order !! key = Some value →
  ∃ tagName, (tagName, value) ∈ order ∧ label_key tagName = key.
Proof.
  revert key value. induction order as [|[k v] order IH] using rev_ind;
    intros key value.
  - unfold replaceReservedTagNames. simpl. by rewrite lookup_empty.
  - rewrite replaceReservedTagNames_snoc, range_step_insert.
    destruct (decide (label_key k = key)) as [<-|Hne].
    + rewrite lookup_insert_eq. intros [= <-]. exists k.
      split; [|done]. apply elem_of_app. right. by apply list_elem_of_singleton.
    + rewrite lookup_insert_ne by done. intros Hl.
      destruct (IH _ _ Hl) as (k' & Hin & Hk'). exists k'.
      split; [|done]. apply elem_of_app. by left.
Qed.

(** When no two visited tags are sent to the same output key with
    different values, every visited tag is found under its output key. *)
Lemma replaceReservedTagNames_complete order :
  (∀ k1 v1 k2 v2, (k1, v1) ∈ order → (k2, v2) ∈ order →
                  label_key k1 = label_key k2 → v1 = v2) →
  ∀ tagName tagValue, (tagName, tagValue) ∈ order →
    replaceReservedTagNames order !! label_key tagName = Some tagValue.
Proof.
  induction order as [|[k v] order IH] using rev_ind;
    intros Hcons tagName tagValue Hin.
  - by apply elem_of_nil in Hin.
  - rewrite replaceReservedTagNames_snoc, range_step_insert.
    assert (Hlast : (k, v) ∈ (order ++ [(k, v)])%list).
    { apply elem_of_app. right. by apply list_elem_of_singleton. }
    destruct (decide (label_key k = label_key tagName)) as [Heq|Hne].
    + rewrite Heq, lookup_insert_eq. f_equal.
      by apply (Hcons k v tagName tagValue).
    + rewrite lookup_insert_ne by done.
      apply elem_of_app in Hin as [Hin|Hin].
      * apply IH; [|done]. intros k1 v1 k2 v2 H1 H2.
        apply Hcons; apply elem_of_app; by left.
      * apply list_elem_of_singleton in Hin. congruence.
Qed.

Lemma range_of_elem tagNames order tagName tagValue :
  range_of tagNames order →
  (tagName, tagValue) ∈ order ↔ tagNames !! tagName = Some tagValue.
Proof. unfold range_of. intros ->. apply elem_of_map_to_list. Qed.

(** No output of the translation has a key [name]. *)
Lemma replaceReservedTagNames_no_name order :
  replaceReservedTagNames order !! "name" = None.
Proof.
  destruct (replaceReservedTagNames order !! "name") as [v|] eqn:E; [|done].
  apply replaceReservedTagNames_sound in E as (k & _ & Hk).
  by apply label_key_not_name in Hk.
Qed.

(** On a map without the key [name] the translation is the identity,
    whatever the visiting order. *)
Lemma replaceReservedTagNames_fixed tagNames order :
  range_of tagNames order →
  tagNames !! "name" = None →
  replaceReservedTagNames order = tagNames.
Proof.
  intros Hr Hnone. apply map_eq. intros key.
  assert (Hk : ∀ k v, (k, v) ∈ order → label_key k = k).
  { intros k v Hin. apply label_key_id. intros ->.
    apply (range_of_elem _ _ _ _ Hr) in Hin. congruence. }
  destruct (tagNames !! key) as [value|] eqn:E.
  - apply (range_of_elem _ _ _ _ Hr) in E.
    rewrite <- (Hk _ _ E). apply replaceReservedTagNames_complete; [|done].
    intros k1 v1 k2 v2 H1 H2.
    rewrite (Hk _ _ H1), (Hk _ _ H2). intros ->.
    apply (range_of_elem _ _ _ _ Hr) in H1, H2. congruence.
  - destruct (replaceReservedTagNames order !! key) as [v|] eqn:E'; [|done].
    apply replaceReservedTagNames_sound in E' as (k & Hin & Hkey).
    rewrite (Hk _ _ Hin) in Hkey. subst k.
    apply (range_of_elem _ _ _ _ Hr) in Hin. congruence.
Qed.

(** C3 (amended).  For a tag set that does not hold both [name] and
    [_name] with different values, and whatever the order in which the
    loop visits it: every tag is in the output with its value, under the
    key [_name] if its key is [name] and under its own key otherwise; and
    the output holds nothing else. *)
Theorem replaceReservedTagNames_labels tagNames order :
  range_of tagNames order →
  (∀ v1 v2, tagNames !! "name" = Some v1 → tagNames !! "_name" = Some v2 →
            v1 = v2) →
  (∀ tagValue, tagNames !! "name" = Some tagValue →
     replaceReservedTagNames order !! "_name" = Some tagValue)
  ∧ (∀ tagName tagValue, tagName ≠ "name" →
       tagNames !! tagName = Some tagValue →
       replaceReservedTagNames order !! tagName = Some tagValue)
  ∧ (∀ key value, replaceReservedTagNames order !! key = Some value →
       (key = "_name" ∧ tagNames !! "name" = Some value)
       ∨ (key ≠ "name" ∧ tagNames !! key = Some value)).
Proof.
  intros Hr Hcollide.
  assert (Hcons : ∀ k1 v1 k2 v2, (k1, v1) ∈ order → (k2, v2) ∈ order →
                    label_key k1 = label_key k2 → v1 = v2).
  { intros k1 v1 k2 v2 H1 H2 Hk.
    apply (range_of_elem _ _ _ _ Hr) in H1, H2.
    destruct (label_key_eq _ _ Hk) as [->|[[-> ->]|[-> ->]]].
    - congruence.
    - by apply Hcollide.
    - symmetry. by apply Hcollide. }
  split; [|split].
  - intros tagValue Hin. apply (range_of_elem _ _ _ _ Hr) in Hin.
    by apply (replaceReservedTagNames_complete order Hcons "name").
  - intros tagName tagValue Hne Hin. apply (range_of_elem _ _ _ _ Hr) in Hin.
    rewrite <- (label_key_id tagName Hne).
    by apply replaceReservedTagNames_complete.
  - intros key value Hout.
    apply replaceReservedTagNames_sound in Hout as (k & Hin & Hk).
    apply (range_of_elem _ _ _ _ Hr) in Hin. unfold label_key in Hk.
    case_bool_decide; subst; [by left | by right].
Qed.

(** C9.  Translating the output of a translation gives that output
    again, whatever the orders of the two loops: the output of the first
    holds no key [name], and a tag set without that key is a fixed point. *)
Theorem replaceReservedTagNames_idempotent tagNames order1 order2 :
  range_of tagNames order1 →
  range_of (replaceReservedTagNames order1) order2 →
  replaceReservedTagNames order1 !! "name" = None
  ∧ replaceReservedTagNames order2 = replaceReservedTagNames order1.
Proof.
  intros _ Hr2. split; [apply replaceReservedTagNames_no_name|].
  apply replaceReservedTagNames_fixed; [done|].
  apply replaceReservedTagNames_no_name.
Qed.

(** ** Further properties of the label translation *)

Lemma range_of_consistent tagNames order :
  range_of tagNames order →
  (∀ v1 v2, tagNames !! "name" = Some v1 → tagNames !! "_name" = Some v2 →
            v1 = v2) →
  ∀ k1 v1 k2 v2, (k1, v1) ∈ order → (k2, v2) ∈ order →
                 label_key k1 = label_key k2 → v1 = v2.
Proof.
  intros Hr Hcollide k1 v1 k2 v2 H1 H2 Hk.
  apply (range_of_elem _ _ _ _ Hr) in H1, H2.
  destruct (label_key_eq _ _ Hk) as [->|[[-> ->]|[-> ->]]].
  - congruence.
  - by apply Hcollide.
  - symmetry. by apply Hcollide.
Qed.

Lemma replaceReservedTagNames_visited order tagName tagValue :
  (tagName, tagValue) ∈ order →
  is_Some (replaceReservedTagNames order !! label_key tagName).
Proof.
  induction order as [|[k v] order IH] using rev_ind; intros Hin.
  - by apply elem_of_nil in Hin.
  - rewrite replaceReservedTagNames_snoc, range_step_insert.
    destruct (decide (label_key k = label_key tagName)) as [Heq|Hne].
    + rewrite Heq, lookup_insert_eq. by eexists.
    + rewrite lookup_insert_ne by done.
      apply elem_of_app in Hin as [Hin|Hin]; [by apply IH|].
      apply list_elem_of_singleton in Hin. congruence.
Qed.

(** The value under an output key is that of the last visited tag that
    is sent to it. *)
Lemma replaceReservedTagNames_last order1 tagName tagValue order2 :
  (∀ k v, (k, v) ∈ order2 → label_key k ≠ label_key tagName) →
  replaceReservedTagNames (order1 ++ (tagName, tagValue) :: order2)
    !! label_key tagName = Some tagValue.
Proof.
  induction order2 as [|[k v] order2 IH] using rev_ind; intros Hlater.
  - rewrite replaceReservedTagNames_snoc, range_step_insert.
    apply lookup_insert_eq.
  - rewrite app_comm_cons, app_assoc.
    rewrite replaceReservedTagNames_snoc, range_step_insert.
    rewrite lookup_insert_ne.
    + apply IH. intros k' v' Hin. apply (Hlater k' v').
      apply elem_of_app. by left.
    + apply (Hlater k v). apply elem_of_app. right.
      by apply list_elem_of_singleton.
Qed.

(** X18.  Whatever the tag set and the order of the loop, the keys of the
    output are the keys of the input with [name] replaced by [_name]. *)
Theorem replaceReservedTagNames_dom tagNames order :
  range_of tagNames order →
  dom (replaceReservedTagNames order)
  = (set_map label_key (dom tagNames) : gset string).
Proof.
  intros Hr. apply set_eq. intros key.
  rewrite elem_of_dom, elem_of_map. split.
  - intros [value Hout].
    apply replaceReservedTagNames_sound in Hout as (k & Hin & Hk).
    apply (range_of_elem _ _ _ _ Hr) in Hin.
    exists k. split; [done|]. apply elem_of_dom. by eexists.
  - intros (k & -> & [v Hin]%elem_of_dom).
    apply (range_of_elem _ _ _ _ Hr) in Hin.
    by apply (replaceReservedTagNames_visited order k v).
Qed.

(** X19.  For a tag set that does not hold both [name] and [_name] with
    different values, the output is the same in every order of the loop:
    the tag set itself when it has no key [name], and otherwise the tag
    set without [name] and with the value of [name] under [_name]. *)
Theorem replaceReservedTagNames_rename tagNames order :
  range_of tagNames order →
  (∀ v1 v2, tagNames !! "name" = Some v1 → tagNames !! "_name" = Some v2 →
            v1 = v2) →
  replaceReservedTagNames order
  = match tagNames !! "name" with
    | Some value => renamed tagNames value
    | None => tagNames
    end.
Proof.
  intros Hr Hcollide.
  pose proof (range_of_consistent _ _ Hr Hcollide) as Hcons.
  destruct (tagNames !! "name") as [value|] eqn:Hname;
    [|by apply replaceReservedTagNames_fixed].
  apply map_eq. intros key. unfold renamed.
  destruct (decide (key = "_name")) as [->|Hk1].
  { rewrite lookup_insert_eq.
    apply (replaceReservedTagNames_complete order Hcons "name").
    by apply (range_of_elem _ _ _ _ Hr). }
  rewrite lookup_insert_ne by done.
  destruct (decide (key = "name")) as [->|Hk2].
  { rewrite lookup_delete_eq. apply replaceReservedTagNames_no_name. }
  rewrite lookup_delete_ne by done.
  destruct (tagNames !! key) as [v|] eqn:Hkey.
  - rewrite <- (label_key_id key Hk2).
    apply replaceReservedTagNames_complete; [done|].
    by apply (range_of_elem _ _ _ _ Hr).
  - destruct (replaceReservedTagNames order !! key) as [v|] eqn:Hout; [|done].
    apply replaceReservedTagNames_sound in Hout as (k & Hin & Hk).
    apply (range_of_elem _ _ _ _ Hr) in Hin. unfold label_key in Hk.
    case_bool_decide; subst; [done | congruence].
Qed.

(** X20.  When the tag set holds both [name] and [_name], the output
    label [_name] has the value of whichever of the two the loop visits
    last: the result depends on the order of the iteration. *)
Theorem replaceReservedTagNames_last_wins tagNames l1 l2 l3 v u :
  (range_of tagNames (l1 ++ ("name", v) :: l2 ++ ("_name", u) :: l3) →
   replaceReservedTagNames (l1 ++ ("name", v) :: l2 ++ ("_name", u) :: l3)
     !! "_name" = Some u)
  ∧ (range_of tagNames (l1 ++ ("_name", u) :: l2 ++ ("name", v) :: l3) →
     replaceReservedTagNames (l1 ++ ("_name", u) :: l2 ++ ("name", v) :: l3)
       !! "_name" = Some v).
Proof.
  assert (Hkeys : ∀ order, range_of tagNames order → NoDup order.*1).
  { intros order Hr. unfold range_of in Hr. rewrite Hr.
    apply NoDup_fst_map_to_list. }
  assert (Hlater : ∀ (order : list (string * string)) k v',
             "name" ∉ order.*1 → "_name" ∉ order.*1 →
             (k, v') ∈ order → label_key k ≠ "_name").
  { intros order k v' Hn1 Hn2 Hin Hk.
    assert (Hfst : k ∈ order.*1) by (apply list_elem_of_fmap; by exists (k, v')).
    unfold label_key in Hk. case_bool_decide; subst; done. }
  split; intros Hr; apply Hkeys in Hr;
    rewrite fmap_app, fmap_cons, fmap_app, fmap_cons in Hr; simpl in Hr;
    apply NoDup_app in Hr as (_ & _ & Hr);
    apply NoDup_cons in Hr as [Hfirst Hr];
    apply NoDup_app in Hr as (_ & _ & Hr);
    apply NoDup_cons in Hr as [Hsecond _];
    rewrite app_comm_cons, app_assoc.
  - apply (replaceReservedTagNames_last _ "_name" u l3).
    intros k v' Hin. apply (Hlater l3 k v'); [|done|done].
    intros Hin'. apply Hfirst. apply elem_of_app. right. by right.
  - apply (replaceReservedTagNames_last _ "name" v l3).
    intros k v' Hin. apply (Hlater l3 k v'); [done| |done].
    intros Hin'. apply Hfirst. apply elem_of_app. right. by right.
Qed.

(** ** Properties of the world's operations and of the methods *)

Section Properties.

Context `{Host}.

Implicit Types (w : World) (body url : string).

Lemma events_of_app w w' evs :
  trace w' = (trace w ++ evs)%list → events_of w w' = evs.
Proof. unfold events_of. intros ->. by rewrite drop_app_length. Qed.

Lemma logged_of_app w w' entries :
  log w' = (log w ++ entries)%list → logged_of w w' = entries.
Proof. unfold logged_of. intros ->. by rewrite drop_app_length. Qed.

Lemma includes_middle before s after : includes (before ++ s ++ after) s.
Proof. by exists before, after. Qed.

Lemma append_empty_r (s : string) : s ++ EmptyString = s.
Proof.
  induction s as [|c s IH]; [done|].
  change (String c (s ++ EmptyString) = String c s). by f_equal.
Qed.

Lemma append_assoc (s1 s2 s3 : string) :
  s1 ++ (s2 ++ s3) = (s1 ++ s2) ++ s3.
Proof.
  induction s1 as [|c s1 IH]; [done|].
  change (String c (s1 ++ (s2 ++ s3)) = String c ((s1 ++ s2) ++ s3)).
  by f_equal.
Qed.

Lemma includes_end before s : includes (before ++ s) s.
Proof. exists before, EmptyString. by rewrite append_empty_r. Qed.

(** *** [getResponseFromMetadata] *)

Lemma getResponseFromMetadata_run url w :
  getResponseFromMetadata url w =
  match url_Parse_error url with
  | Some err => (Err ("error creating request: " ++ err), w)
  | None =>
      let w1 := (client_Do (metadataRequest url) w).2 in
      match transport (length (trace w)) (metadataRequest url) with
      | Err err => (Err err, w1)
      | Ok resp =>
          match resp_Body resp with
          | Err err => (Err err, w1)
          | Ok body =>
              if bool_decide (StatusCode resp >= 300)
                 || bool_decide (StatusCode resp < 200)
              then (Err ("unable to fetch instance metadata: [" ++ url ++ "] "
                         ++ pretty (StatusCode resp)), w1)
              else (Ok body, w1)
          end
      end
  end.
Proof.
  unfold getResponseFromMetadata, http_NewRequest.
  destruct (url_Parse_error url); [done|].
  unfold bind, client_Do, metadataRequest, lift. simpl.
  destruct (transport _ _) as [resp|]; [|done].
  destruct (resp_Body resp); [|done].
  by destruct (_ || _).
Qed.

Lemma metadata_step_refl url w : metadata_step url w w.
Proof.
  repeat split; auto. exists []. split; [by rewrite app_nil_r|].
  by intros ? ?%elem_of_nil.
Qed.

Lemma metadata_step_call url w :
  metadata_step url w (client_Do (metadataRequest url) w).2.
Proof.
  repeat split; simpl; auto. exists []. split; [by rewrite app_nil_r|].
  by intros ? ?%elem_of_nil.
Qed.

Lemma getResponseFromMetadata_step url w :
  metadata_step url w (getResponseFromMetadata url w).2.
Proof.
  rewrite getResponseFromMetadata_run.
  destruct (url_Parse_error url); [apply metadata_step_refl|].
  pose proof (metadata_step_call url w) as Hcall.
  cbv zeta. destruct (transport _ _) as [resp|]; [|done].
  destruct (resp_Body resp); [|done].
  by destruct (_ || _).
Qed.

Lemma getResponseFromMetadata_trace url w :
  url_Parse_error url = None →
  trace (getResponseFromMetadata url w).2
  = (trace w ++ [(metadataRequest url,
                  transport (length (trace w)) (metadataRequest url))])%list.
Proof.
  intros Hurl. rewrite getResponseFromMetadata_run, Hurl. simpl.
  destruct (transport _ _) as [resp|]; [|done].
  destruct (resp_Body resp); [|done].
  by destruct (_ || _).
Qed.

(** *** [getIAMTokenFromMetadata] *)

Lemma getIAMTokenFromMetadata_run w :
  getIAMTokenFromMetadata w =
  let tokenURL := metadataTokenURL (plugin w) in
  match getResponseFromMetadata tokenURL
          (Logf LDebug ("Getting new IAM token in " ++ tokenURL) w).2 with
  | (Err err, w1) => (Err err, w1)
  | (Ok body, w1) =>
      match json_Unmarshal body with
      | Err err => (Err err, w1)
      | Ok metadata =>
          if bool_decide (AccessToken metadata = "")
             || bool_decide (ExpiresIn metadata = 0)
          then (Err ("unable to fetch authentication credentials " ++ tokenURL
                     ++ ": %!w(<nil>)"), w1)
          else (Ok (AccessToken metadata, int_of_int64 (ExpiresIn metadata)), w1)
      end
  end.
Proof.
  unfold getIAMTokenFromMetadata, bind, gets, lift. simpl.
  destruct (getResponseFromMetadata _ _) as [[body|err] w1]; [|done].
  destruct (json_Unmarshal body) as [metadata|]; [|done].
  by destruct (_ || _).
Qed.

Lemma getIAMTokenFromMetadata_step w :
  metadata_step (metadataTokenURL (plugin w)) w (getIAMTokenFromMetadata w).2.
Proof.
  set (url := metadataTokenURL (plugin w)).
  set (wl := (Logf LDebug ("Getting new IAM token in " ++ url) w).2).
  assert (Hstep : metadata_step url w (getResponseFromMetadata url wl).2).
  { destruct (getResponseFromMetadata_step url wl)
      as (Hp & Hc & Hr & (entries & Hl & Hd) & Ht).
    repeat split; [done .. | |done].
    exists ((LDebug, "Getting new IAM token in " ++ url) :: entries). split.
    - rewrite Hl. unfold wl. simpl. by rewrite <- app_assoc.
    - intros entry [->|Hin]%elem_of_cons; [done | by apply Hd]. }
  rewrite getIAMTokenFromMetadata_run. cbv zeta. fold url. fold wl.
  destruct (getResponseFromMetadata url wl) as [[body|err] w1]; [|done].
  destruct (json_Unmarshal body) as [metadata|]; [|done].
  by destruct (_ || _).
Qed.

Lemma getIAMTokenFromMetadata_trace w :
  url_Parse_error (metadataTokenURL (plugin w)) = None →
  trace (getIAMTokenFromMetadata w).2
  = (trace w ++ [(metadataRequest (metadataTokenURL (plugin w)),
                  transport (length (trace w))
                    (metadataRequest (metadataTokenURL (plugin w))))])%list.
Proof.
  intros Hurl. rewrite getIAMTokenFromMetadata_run. cbv zeta.
  pose proof (getResponseFromMetadata_trace (metadataTokenURL (plugin w))
    (Logf LDebug ("Getting new IAM token in " ++ metadataTokenURL (plugin w)) w).2
    Hurl) as Ht.
  destruct (getResponseFromMetadata _ _) as [[body|err] w1]; [|done].
  destruct (json_Unmarshal body) as [metadata|]; [|done].
  by destruct (_ || _).
Qed.

(** An accepted response carries a token and a lifetime other than zero. *)
Lemma getIAMTokenFromMetadata_Ok w token expiresIn w1 :
  getIAMTokenFromMetadata w = (Ok (token, expiresIn), w1) →
  token ≠ ""
  ∧ ∃ metadata, AccessToken metadata = token
      ∧ ExpiresIn metadata ≠ 0
      ∧ expiresIn = int_of_int64 (ExpiresIn metadata).
Proof.
  rewrite getIAMTokenFromMetadata_run. cbv zeta.
  destruct (getResponseFromMetadata _ _) as [[body|err] w2]; [|done].
  destruct (json_Unmarshal body) as [metadata|]; [|done].
  destruct (bool_decide (AccessToken metadata = "")) eqn:E1; [done|].
  destruct (bool_decide (ExpiresIn metadata = 0)) eqn:E2; [done|].
  simpl. intros [= <- <- <-].
  apply bool_decide_eq_false in E1, E2. split; [done|]. by exists metadata.
Qed.

(** *** [send] *)

Lemma needs_refresh_true w :
  needs_refresh w →
  bool_decide (iamToken (plugin w) = "")
  || Time_Before (iamTokenExpirationTime (plugin w)) (clock (clock_reads w))
  = true.
Proof.
  unfold needs_refresh, Time_Before. intros [Ht|Hexp].
  - by rewrite (bool_decide_eq_true_2 _ Ht).
  - rewrite (bool_decide_eq_true_2 _ Hexp). apply orb_true_r.
Qed.

Lemma needs_refresh_false w :
  ¬ needs_refresh w →
  bool_decide (iamToken (plugin w) = "")
  || Time_Before (iamTokenExpirationTime (plugin w)) (clock (clock_reads w))
  = false.
Proof.
  unfold needs_refresh, Time_Before. intros Hn.
  rewrite !bool_decide_eq_false_2; [done | tauto | tauto].
Qed.

Lemma refreshToken_run w :
  refreshToken w =
  if bool_decide (iamToken (plugin w) = "")
     || Time_Before (iamTokenExpirationTime (plugin w)) (clock (clock_reads w))
  then
    match getIAMTokenFromMetadata (time_Now w).2 with
    | (Err err, w1) => (Err err, w1)
    | (Ok (token, expiresIn), w1) =>
        (Ok tt,
         store_token token
           (Time_Add (clock (clock_reads w1))
              (Duration_mul (Duration expiresIn) Second))
           (time_Now w1).2)
    end
  else (Ok tt, (time_Now w).2).
Proof.
  unfold refreshToken, bind, gets, time_Now. simpl.
  destruct (_ || _); [|done].
  by destruct (getIAMTokenFromMetadata _) as [[[token expiresIn]|err] w1].
Qed.

Lemma deliver_run req w :
  deliver req w
  = (delivery_result (transport (length (trace w)) req), (client_Do req w).2).
Proof.
  unfold deliver, bind, client_Do, delivery_result. simpl.
  destruct (transport _ _) as [resp|]; [|done].
  rewrite <- orb_assoc. by destruct (_ || _).
Qed.

Lemma send_run body w :
  send body w =
  match url_Parse_error (Endpoint (plugin w)) with
  | Some err => (Err err, w)
  | None =>
      match refreshToken w with
      | (Err err, w1) => (Err err, w1)
      | (Ok _, w1) =>
          deliver (postRequest (plugin w) body (iamToken (plugin w1))) w1
      end
  end.
Proof.
  unfold send, bind, gets, lift, http_NewRequest. simpl.
  destruct (url_Parse_error _); [done|].
  by destruct (refreshToken w) as [[[]|err] w1].
Qed.

Lemma Header_Get_Set req key value :
  Header_Get (Header_Set req key value) key = Some value.
Proof.
  unfold Header_Get, Header_Set. simpl.
  rewrite filter_cons_True by done. done.
Qed.

Lemma wrap64_small x : - 2 ^ 63 ≤ x < 2 ^ 63 → wrap64 x = x.
Proof. unfold wrap64. intros Hx. rewrite Z.mod_small; lia. Qed.

(** A [send] that finds a usable token makes one round trip, the POST. *)
Lemma send_no_refresh body w :
  url_Parse_error (Endpoint (plugin w)) = None →
  ¬ needs_refresh w →
  let req := postRequest (plugin w) body (iamToken (plugin w)) in
  send body w
  = (delivery_result (transport (length (trace w)) req),
     (client_Do req (time_Now w).2).2).
Proof.
  intros Hurl Hvalid. rewrite send_run, Hurl, refreshToken_run.
  rewrite (needs_refresh_false _ Hvalid). by rewrite deliver_run.
Qed.

(** A [send] that finds no usable token calls [getIAMTokenFromMetadata]
    once, and goes on to the POST only when that succeeds. *)
Lemma send_refresh body w :
  url_Parse_error (Endpoint (plugin w)) = None →
  needs_refresh w →
  send body w =
  match getIAMTokenFromMetadata (time_Now w).2 with
  | (Err err, w1) => (Err err, w1)
  | (Ok (token, expiresIn), w1) =>
      let w2 := store_token token
                  (Time_Add (clock (clock_reads w1))
                     (Duration_mul (Duration expiresIn) Second))
                  (time_Now w1).2 in
      deliver (postRequest (plugin w) body token) w2
  end.
Proof.
  intros Hurl Hneeds. rewrite send_run, Hurl, refreshToken_run.
  rewrite (needs_refresh_true _ Hneeds).
  by destruct (getIAMTokenFromMetadata _) as [[[token expiresIn]|err] w1].
Qed.

Lemma count_calls_app method url evs1 evs2 :
  count_calls method url (evs1 ++ evs2)
  = (count_calls method url evs1 + count_calls method url evs2)%nat.
Proof. unfold count_calls. by rewrite filter_app, length_app. Qed.

Lemma count_calls_metadataRequest url outcome :
  count_calls "GET" url [(metadataRequest url, outcome)] = 1%nat.
Proof.
  unfold count_calls. rewrite filter_cons_True; [done|].
  unfold is_call. simpl. by rewrite !bool_decide_eq_true_2.
Qed.

Lemma count_calls_postRequest url a body token outcome :
  count_calls "GET" url [(postRequest a body token, outcome)] = 0%nat.
Proof.
  unfold count_calls. rewrite filter_cons_False; [done|].
  unfold is_call. simpl. done.
Qed.

(** The refresh of C1: what [send] stores when the metadata service
    answers with the token [t1] and the lifetime 3600. *)
Lemma send_stores_credential body w resp payload metadata :
  url_Parse_error (Endpoint (plugin w)) = None →
  url_Parse_error (metadataTokenURL (plugin w)) = None →
  needs_refresh w →
  transport (length (trace w)) (metadataRequest (metadataTokenURL (plugin w)))
  = Ok resp →
  resp_Body resp = Ok payload →
  200 ≤ StatusCode resp < 300 →
  json_Unmarshal payload = Ok metadata →
  AccessToken metadata ≠ "" →
  ExpiresIn metadata ≠ 0 →
  let w' := (send body w).2 in
  iamToken (plugin w') = AccessToken metadata
  ∧ iamTokenExpirationTime (plugin w')
    = Time_Add (clock (S (clock_reads w)))
        (Duration_mul (Duration (int_of_int64 (ExpiresIn metadata))) Second)
  ∧ clock_reads w' = S (S (clock_reads w)).
Proof.
  intros Hurl Htok Hneeds Htr Hbody Hcode Hjson Hacc Hexp.
  cbv zeta. rewrite send_refresh by done.
  rewrite getIAMTokenFromMetadata_run. cbv zeta.
  rewrite getResponseFromMetadata_run. simpl. rewrite Htok. simpl.
  rewrite Htr, Hbody.
  rewrite !bool_decide_eq_false_2 by lia. simpl.
  rewrite Hjson. rewrite !bool_decide_eq_false_2 by done. simpl.
  rewrite deliver_run. done.
Qed.

Lemma same_config_refl a : same_config a a.
Proof. by repeat split. Qed.

(** The round trips of a [send] that finds no usable token: the GET of the
    token, then the POST if a token was obtained. *)
Lemma send_refresh_events body w :
  url_Parse_error (Endpoint (plugin w)) = None →
  url_Parse_error (metadataTokenURL (plugin w)) = None →
  needs_refresh w →
  ∃ evs,
    events_of w (send body w).2
    = (metadataRequest (metadataTokenURL (plugin w)),
       transport (length (trace w))
         (metadataRequest (metadataTokenURL (plugin w)))) :: evs
    ∧ (evs = [] ∧ is_Err (send body w).1 = true
       ∨ ∃ token outcome,
           evs = [(postRequest (plugin w) body token, outcome)]).
Proof.
  intros Hurl Htok Hneeds. rewrite send_refresh by done.
  pose proof (getIAMTokenFromMetadata_trace (time_Now w).2 Htok) as Ht.
  simpl in Ht.
  destruct (getIAMTokenFromMetadata _) as [[[token expiresIn]|err] w1].
  - cbv zeta. rewrite deliver_run. simpl in *.
    eexists. split.
    + apply events_of_app. simpl. rewrite Ht, <- app_assoc. done.
    + right. by eexists _, _.
  - exists []. split; [|by left]. by apply events_of_app.
Qed.

Lemma send_config body w :
  same_config (plugin w) (plugin (send body w).2).
Proof.
  rewrite send_run. destruct (url_Parse_error _); [apply same_config_refl|].
  rewrite refreshToken_run. destruct (_ || _).
  - pose proof (getIAMTokenFromMetadata_step (time_Now w).2)
      as (Hp & _).
    destruct (getIAMTokenFromMetadata _) as [[[token expiresIn]|err] w1];
      simpl in *.
    + rewrite deliver_run. simpl. rewrite Hp. by repeat split.
    + rewrite Hp. apply same_config_refl.
  - rewrite deliver_run. apply same_config_refl.
Qed.

(** C1 (amended).  After a refresh at time [T] that parsed a metadata
    response with access token [t1] and lifetime 3600, the plugin holds
    [t1] with the expiration [T + 3600 s].  From then on a [send] whose
    reading [q] of the clock is at most [T + 3600 s] makes a single round
    trip, the POST with [Authorization: Bearer t1], and no call of the
    metadata service; a [send] with [T + 3600 s < q] makes exactly one GET
    of the token URL.  ([send] is taken to get as far as the token: the
    endpoint and the token URL parse.) *)
Theorem send_token_caching body0 w0 resp payload tokenType :
  url_Parse_error (Endpoint (plugin w0)) = None →
  url_Parse_error (metadataTokenURL (plugin w0)) = None →
  needs_refresh w0 →
  transport (length (trace w0))
    (metadataRequest (metadataTokenURL (plugin w0))) = Ok resp →
  resp_Body resp = Ok payload →
  200 ≤ StatusCode resp < 300 →
  json_Unmarshal payload = Ok (mkMetadataIamToken "t1" 3600 tokenType) →
  let T := clock (S (clock_reads w0)) in
  let w1 := (send body0 w0).2 in
  iamToken (plugin w1) = "t1"
  ∧ iamTokenExpirationTime (plugin w1) = T + 3600 * Second
  ∧ ∀ w body, plugin w = plugin w1 →
      let q := clock (clock_reads w) in
      let w' := (send body w).2 in
      let req := postRequest (plugin w) body "t1" in
      (q ≤ T + 3600 * Second →
         events_of w w' = [(req, transport (length (trace w)) req)]
         ∧ Header_Get req "Authorization" = Some "Bearer t1"
         ∧ count_calls "GET" (metadataTokenURL (plugin w)) (events_of w w')
           = 0%nat)
      ∧ (T + 3600 * Second < q →
         count_calls "GET" (metadataTokenURL (plugin w)) (events_of w w')
         = 1%nat).
Proof.
  intros Hurl Htok Hneeds Htr Hbody Hcode Hjson T w1.
  destruct (send_stores_credential body0 w0 resp payload _
              Hurl Htok Hneeds Htr Hbody Hcode Hjson) as (Ht1 & Hexp & _);
    [done | done |].
  simpl in Ht1, Hexp. fold w1 in Ht1, Hexp.
  assert (Hexp' : iamTokenExpirationTime (plugin w1) = T + 3600 * Second).
  { rewrite Hexp. reflexivity. }
  split; [done|]. split; [done|].
  intros w body Hw q w' req.
  destruct (send_config body0 w0) as (_ & Hend & _ & Hturl & _).
  fold w1 in Hend, Hturl.
  assert (Hurl' : url_Parse_error (Endpoint (plugin w)) = None)
    by (by rewrite Hw, Hend).
  assert (Htok' : url_Parse_error (metadataTokenURL (plugin w)) = None)
    by (by rewrite Hw, Hturl).
  split.
  - intros Hq.
    assert (Hvalid : ¬ needs_refresh w).
    { unfold needs_refresh. rewrite Hw, Ht1, Hexp'. fold q.
      intros [?|?]; [done | lia]. }
    assert (Hev : events_of w w' = [(req, transport (length (trace w)) req)]).
    { unfold w'. rewrite (send_no_refresh _ _ Hurl' Hvalid). cbv zeta.
      apply events_of_app. simpl. unfold req. by rewrite Hw, Ht1. }
    split; [done|]. split; [apply Header_Get_Set|].
    rewrite Hev. apply count_calls_postRequest.
  - intros Hq.
    assert (Hneeds' : needs_refresh w).
    { right. rewrite Hw, Hexp'. by fold q. }
    destruct (send_refresh_events body w Hurl' Htok' Hneeds')
      as (evs & Hev & Hevs).
    fold w' in Hev. rewrite Hev.
    change (?x :: evs) with ([x] ++ evs)%list.
    rewrite count_calls_app, count_calls_metadataRequest.
    destruct Hevs as [[-> _]|(token & outcome & ->)]; [done|].
    by rewrite count_calls_postRequest.
Qed.

(** *** The loops of [Write] *)

Lemma extend_append {A} (s : option (list A)) x points :
  extend (append s x) points = extend s (x :: points).
Proof.
  unfold extend, append. destruct points; simpl; [done|].
  by rewrite <- app_assoc.
Qed.

Lemma extend_extend {A} (s : option (list A)) points1 points2 :
  extend (extend s points1) points2 = extend s (points1 ++ points2).
Proof.
  destruct points1 as [|x1 points1]; [done|].
  destruct points2 as [|x2 points2]; [by rewrite app_nil_r|].
  unfold extend. simpl. by rewrite <- app_assoc.
Qed.

Lemma range_fields_run m fields acc w :
  ∃ chunk w',
    range_fields m fields acc w = (Ok (extend acc chunk), w')
    ∧ Name <$> chunk
      = (λ field, m_Name m ++ "_" ++ Key field)
          <$> filter (λ field, coercible field = true) fields
    ∧ Forall (point_of m) chunk
    ∧ translation_step w w' (omap skip_entry fields).
Proof.
  revert acc w. induction fields as [|field fields IH]; intros acc w.
  - exists [], w. repeat split; simpl; auto. by rewrite app_nil_r.
  - simpl. unfold skip_entry at 1.
    destruct (ToFloat64 (f_Value field)) as [value|err] eqn:E.
    + unfold bind, range_map. simpl.
      edestruct IH as (chunk & w' & -> & Hn & Hp & Hs).
      eexists (_ :: chunk), w'. rewrite extend_append.
      split; [done|].
      rewrite filter_cons_True by (unfold coercible; by rewrite E).
      split; [rewrite !fmap_cons; by rewrite Hn|].
      split; [|done].
      constructor; [|done]. repeat split.
      eexists. split; [apply range_order_ok | done].
    + unfold bind, Logf. simpl.
      edestruct IH as (chunk & w' & -> & Hn & Hp & Hs).
      exists chunk, w'. split; [done|].
      rewrite filter_cons_False by (unfold coercible; by rewrite E).
      split; [done|]. split; [done|].
      destruct Hs as (? & ? & ? & Hl). repeat split; [done..|].
      rewrite Hl. simpl. by rewrite <- app_assoc.
Qed.

Lemma range_metrics_run metrics acc w :
  ∃ chunks w',
    range_metrics metrics acc w = (Ok (extend acc (concat chunks)), w')
    ∧ Forall2 (λ m chunk,
         Name <$> chunk
         = (λ field, m_Name m ++ "_" ++ Key field) <$> numeric_fields m
         ∧ Forall (point_of m) chunk) metrics chunks
    ∧ translation_step w w' (metrics ≫= λ m, omap skip_entry (m_FieldList m)).
Proof.
  revert acc w. induction metrics as [|m metrics IH]; intros acc w.
  - exists [], w. repeat split; simpl; auto. by rewrite app_nil_r.
  - simpl. unfold bind.
    destruct (range_fields_run m (m_FieldList m) acc w)
      as (chunk & w1 & -> & Hn & Hp & Hs).
    destruct (IH (extend acc chunk) w1) as (chunks & w' & -> & Hall & Hs').
    exists (chunk :: chunks), w'. rewrite extend_extend.
    split; [done|]. split; [by constructor|].
    destruct Hs as (Hp1 & Hc1 & Ht1 & Hl1), Hs' as (Hp2 & Hc2 & Ht2 & Hl2).
    repeat split; [congruence..|].
    rewrite Hl2, Hl1. by rewrite <- app_assoc.
Qed.

Lemma length_skip_entries fields :
  length (omap skip_entry fields)
  = length (filter (λ field, coercible field = false) fields).
Proof.
  induction fields as [|field fields IH]; [done|].
  simpl. unfold skip_entry at 1.
  destruct (ToFloat64 (f_Value field)) eqn:E; simpl.
  - by rewrite filter_cons_False by (unfold coercible; by rewrite E).
  - rewrite filter_cons_True by (unfold coercible; by rewrite E).
    simpl. f_equal. exact IH.
Qed.

(** The round trips of any [send]: calls of the metadata service for the
    token, then at most one POST, whose outcome decides what [send]
    returns. *)
Lemma send_events body w :
  ∃ gets,
    (∀ ev, ev ∈ gets →
       ev.1 = metadataRequest (metadataTokenURL (plugin w)))
    ∧ (events_of w (send body w).2 = gets ∧ is_Err (send body w).1 = true
       ∨ ∃ token outcome,
           events_of w (send body w).2
           = (gets ++ [(postRequest (plugin w) body token, outcome)])%list
           ∧ (send body w).1 = delivery_result outcome).
Proof.
  rewrite send_run. destruct (url_Parse_error _).
  { exists []. split; [by intros ? ?%elem_of_nil|]. left.
    split; [|done]. apply events_of_app. by rewrite app_nil_r. }
  rewrite refreshToken_run. destruct (_ || _).
  - pose proof (getIAMTokenFromMetadata_step (time_Now w).2)
      as (Hp & _ & _ & _ & Ht).
    change (plugin (time_Now w).2) with (plugin w) in Hp, Ht.
    change (trace (time_Now w).2) with (trace w) in Ht.
    assert (Hgets : ∃ gets,
               trace (getIAMTokenFromMetadata (time_Now w).2).2
               = (trace w ++ gets)%list
               ∧ ∀ ev, ev ∈ gets →
                   ev.1 = metadataRequest (metadataTokenURL (plugin w))).
    { destruct Ht as [Ht|Ht]; rewrite Ht.
      - exists []. split; [by rewrite app_nil_r | by intros ? ?%elem_of_nil].
      - eexists. split; [done|]. by intros ev ->%list_elem_of_singleton. }
    clear Ht. destruct Hgets as (gets & Htr & Hgets). exists gets.
    split; [done|].
    destruct (getIAMTokenFromMetadata _) as [[[token expiresIn]|err] w1];
      simpl in Hp, Htr.
    + right. rewrite deliver_run. eexists _, _. split; [|done].
      apply events_of_app. simpl. by rewrite Htr, <- app_assoc.
    + left. split; [|done]. by apply events_of_app.
  - exists []. split; [by intros ? ?%elem_of_nil|]. right.
    rewrite deliver_run. eexists _, _. split; [|done].
    by apply events_of_app.
Qed.

(** A POST among the round trips of a [send] carries the body given to
    [send], and its outcome decides what [send] returns. *)
Lemma send_post body w req outcome :
  (req, outcome) ∈ events_of w (send body w).2 →
  req_Method req = "POST" →
  (∃ token, req = postRequest (plugin w) body token)
  ∧ (send body w).1 = delivery_result outcome.
Proof.
  intros Hin Hpost.
  destruct (send_events body w) as (gets & Hgets & [[Hev _]|Hev]).
  - rewrite Hev in Hin. apply Hgets in Hin. simpl in Hin.
    by rewrite Hin in Hpost.
  - destruct Hev as (token & outcome' & Hev & Hres). rewrite Hev in Hin.
    apply elem_of_app in Hin as [Hin|Hin].
    + apply Hgets in Hin. simpl in Hin. by rewrite Hin in Hpost.
    + apply list_elem_of_singleton in Hin as [= -> ->]. eauto.
Qed.

(** C4.  Whatever the metrics, the loops of [Write] return without error
    and yield, metric by metric and in the order of its fields, one point
    for each field whose value coerces to [float64], named by the name of
    the metric, an underscore and the key of the field; for each field
    that does not coerce one diagnostic is logged at error level and
    nothing else happens; [Write] then goes on to encode and send the
    points. *)
Theorem Write_translation metrics w :
  ∃ chunks w',
    range_metrics metrics None w = (Ok (extend None (concat chunks)), w')
    ∧ Forall2 (λ m chunk,
         Name <$> chunk
         = (λ field, m_Name m ++ "_" ++ Key field) <$> numeric_fields m
         ∧ length chunk = length (numeric_fields m)
         ∧ Forall (point_of m) chunk) metrics chunks
    ∧ plugin w' = plugin w ∧ trace w' = trace w
    ∧ logged_of w w' = metrics ≫= (λ m, omap skip_entry (m_FieldList m))
    ∧ Forall (λ m, length (omap skip_entry (m_FieldList m))
                   = length (skipped_fields m)) metrics
    ∧ Write metrics w
      = (body <- lift (json_Marshal
                         (mkMessage "" None (extend None (concat chunks)))) ;;
         send (body ++ newline)) w'.
Proof.
  destruct (range_metrics_run metrics None w)
    as (chunks & w' & Hrun & Hall & Hp & _ & Ht & Hl).
  exists chunks, w'. split; [done|]. split.
  { eapply Forall2_impl; [exact Hall|]. intros m chunk [Hn Hpts].
    split; [done|]. split; [|done].
    rewrite <- (length_fmap Name chunk), Hn. by rewrite length_fmap. }
  split; [done|]. split; [done|]. split; [by apply logged_of_app|].
  split.
  { apply Forall_forall. intros m _. apply length_skip_entries. }
  unfold Write, bind at 1. by rewrite Hrun.
Qed.

Lemma json_Marshal_nil :
  json_Marshal (mkMessage "" None None)
  = Ok ("{" ++ dquote ++ "metrics" ++ dquote ++ ":null}").
Proof. reflexivity. Qed.

(** C10.  When no field of the batch coerces to [float64] (an empty list
    of metrics included), [Write] leaves the slice of points [nil],
    encodes it as [null] and calls [send] with the bytes
    [{"metrics":null}] and a line feed: every POST that [Write] makes
    carries that body, and one is made whenever a usable token is held. *)
Theorem Write_empty_batch metrics w :
  (∀ m field, m ∈ metrics → field ∈ m_FieldList m → coercible field = false) →
  ∃ w0,
    range_metrics metrics None w = (Ok None, w0)
    ∧ json_Marshal (mkMessage "" None None)
      = Ok ("{" ++ dquote ++ "metrics" ++ dquote ++ ":null}")
    ∧ Write metrics w = send null_batch_body w0
    ∧ (∀ req outcome,
         (req, outcome) ∈ events_of w (Write metrics w).2 →
         req_Method req = "POST" → req_Body req = null_batch_body)
    ∧ (url_Parse_error (Endpoint (plugin w)) = None →
       ¬ needs_refresh w →
       ∃ outcome,
         events_of w (Write metrics w).2
         = [(postRequest (plugin w) null_batch_body (iamToken (plugin w)),
             outcome)]).
Proof.
  intros Hnone.
  destruct (range_metrics_run metrics None w)
    as (chunks & w0 & Hrun & Hall & Hp & Hc & Ht & Hl).
  assert (Hnil : concat chunks = []).
  { clear Hrun Hl. induction Hall as [|m chunk metrics chunks [Hn _] _ IH];
      [done|].
    simpl. rewrite IH.
    - assert (Hf : numeric_fields m = []).
      { unfold numeric_fields. apply elem_of_nil_inv.
        intros field [Hco Hin]%list_elem_of_filter.
        rewrite (Hnone m field) in Hco; [done | set_solver | done]. }
      rewrite Hf in Hn. apply fmap_nil_inv in Hn. by rewrite Hn.
    - intros m' field Hm'. apply Hnone. set_solver. }
  rewrite Hnil in Hrun. simpl in Hrun.
  assert (HW : Write metrics w = send null_batch_body w0).
  { unfold Write, bind at 1. by rewrite Hrun. }
  assert (Hev : events_of w (Write metrics w).2
                = events_of w0 (send null_batch_body w0).2).
  { rewrite HW. unfold events_of. by rewrite Ht. }
  exists w0. split; [done|]. split; [reflexivity|]. split; [done|]. split.
  - intros req outcome Hin Hpost. rewrite Hev in Hin.
    destruct (send_post _ _ _ _ Hin Hpost) as [[token ->] _]. done.
  - intros Hurl Hvalid. rewrite Hev.
    assert (Hvalid0 : ¬ needs_refresh w0).
    { unfold needs_refresh in *. by rewrite Hp, Hc. }
    rewrite send_no_refresh by (by rewrite ?Hp). cbv zeta.
    eexists. apply events_of_app. simpl. by rewrite Hp.
Qed.

(** [Write] is its loops, the encoding, and [send]. *)
Lemma Write_run metrics w :
  ∃ points w0 entries,
    translation_step w w0 entries
    ∧ (∀ entry, entry ∈ entries → entry.1 = LError)
    ∧ range_metrics metrics None w = (Ok points, w0)
    ∧ Write metrics w
      = match json_Marshal (mkMessage "" None points) with
        | Err err => (Err err, w0)
        | Ok body => send (body ++ newline) w0
        end.
Proof.
  destruct (range_metrics_run metrics None w)
    as (chunks & w0 & Hrun & _ & Hstep).
  eexists _, w0, _. split; [exact Hstep|]. split.
  { intros entry (m & Hin & _)%list_elem_of_bind.
    apply list_elem_of_omap in Hin as (field & _ & Hskip).
    unfold skip_entry in Hskip.
    destruct (ToFloat64 _); [done|]. by injection Hskip as <-. }
  split; [done|].
  unfold Write, bind at 1. rewrite Hrun. unfold bind, lift.
  by destruct (json_Marshal _).
Qed.

Lemma Write_post metrics w req outcome :
  (req, outcome) ∈ events_of w (Write metrics w).2 →
  req_Method req = "POST" →
  (Write metrics w).1 = delivery_result outcome.
Proof.
  destruct (Write_run metrics w)
    as (points & w0 & entries & (Hp & _ & Ht & _) & _ & _ & ->).
  unfold events_of. rewrite <- Ht.
  destruct (json_Marshal _) as [body|err].
  - intros Hin Hpost. by destruct (send_post _ _ _ _ Hin Hpost).
  - simpl. rewrite drop_all. by intros ?%elem_of_nil.
Qed.

(** C5 (amended).  When a publish gets as far as the POST, the outcome of the POST
    decides what it returns: a transport error is returned as it is; a
    response with a status code in [200,299] whose body was read is a
    success; a response whose body could not be read is a failure; and a
    response with a status code outside [200,299] is a failure whose
    message includes the status code and the status text. *)
Theorem Write_delivery_outcome metrics w req outcome :
  (req, outcome) ∈ events_of w (Write metrics w).2 →
  req_Method req = "POST" →
  match outcome with
  | Err err => (Write metrics w).1 = Err err
  | Ok resp =>
      (200 ≤ StatusCode resp ≤ 299 → is_Err (resp_Body resp) = false →
       (Write metrics w).1 = Ok tt)
      ∧ (is_Err (resp_Body resp) = true → is_Err (Write metrics w).1 = true)
      ∧ (¬ 200 ≤ StatusCode resp ≤ 299 →
         ∃ msg, (Write metrics w).1 = Err msg
                ∧ includes msg (pretty (StatusCode resp))
                ∧ includes msg (Status resp))
  end.
Proof.
  intros Hin Hpost. rewrite (Write_post _ _ _ _ Hin Hpost).
  destruct outcome as [resp|err]; [|done]. simpl.
  split; [|split].
  - intros Hcode ->. by rewrite !bool_decide_eq_false_2 by lia.
  - by intros ->.
  - intros Hcode.
    assert (Hb : is_Err (resp_Body resp) || bool_decide (StatusCode resp < 200)
                 || bool_decide (StatusCode resp > 299) = true).
    { destruct (decide (StatusCode resp < 200)).
      - rewrite (bool_decide_eq_true_2 (StatusCode resp < 200)) by done.
        by rewrite orb_true_r.
      - rewrite (bool_decide_eq_true_2 (StatusCode resp > 299)) by lia.
        by rewrite orb_true_r. }
    rewrite Hb. eexists. split; [done|]. split.
    + apply (includes_middle "failed to write batch: [").
    + rewrite !append_assoc. apply includes_end.
Qed.

(** C2.  When the metadata service answers the request for a token with
    an empty [access_token] or with [expires_in] zero, the refresh returns
    an error, [send] returns that error without a POST, and the token and
    its expiration are what they were; the next [send], at a reading of
    the clock that is not earlier, asks the metadata service again. *)
Theorem refresh_failure_keeps_credential body w resp payload metadata :
  url_Parse_error (Endpoint (plugin w)) = None →
  url_Parse_error (metadataTokenURL (plugin w)) = None →
  needs_refresh w →
  transport (length (trace w))
    (metadataRequest (metadataTokenURL (plugin w))) = Ok resp →
  resp_Body resp = Ok payload →
  200 ≤ StatusCode resp < 300 →
  json_Unmarshal payload = Ok metadata →
  AccessToken metadata = "" ∨ ExpiresIn metadata = 0 →
  let tokenURL := metadataTokenURL (plugin w) in
  let err := "unable to fetch authentication credentials " ++ tokenURL
             ++ ": %!w(<nil>)" in
  let w' := (send body w).2 in
  (getIAMTokenFromMetadata (time_Now w).2).1 = Err err
  ∧ (send body w).1 = Err err
  ∧ iamToken (plugin w') = iamToken (plugin w)
  ∧ iamTokenExpirationTime (plugin w') = iamTokenExpirationTime (plugin w)
  ∧ events_of w w' = [(metadataRequest tokenURL, Ok resp)]
  ∧ ∀ body',
      clock (clock_reads w) ≤ clock (clock_reads w') →
      ∃ evs,
        events_of w' (send body' w').2
        = (metadataRequest tokenURL,
           transport (length (trace w')) (metadataRequest tokenURL)) :: evs.
Proof.
  intros Hurl Htok Hneeds Htr Hbody Hcode Hjson Hbad tokenURL err w'.
  assert (Hiam : getIAMTokenFromMetadata (time_Now w).2
                 = (Err err, (getIAMTokenFromMetadata (time_Now w).2).2)).
  { rewrite getIAMTokenFromMetadata_run. cbv zeta.
    rewrite getResponseFromMetadata_run. simpl. rewrite Htok. simpl.
    rewrite Htr, Hbody. rewrite !bool_decide_eq_false_2 by lia. simpl.
    rewrite Hjson.
    assert (Hb : bool_decide (AccessToken metadata = "")
                 || bool_decide (ExpiresIn metadata = 0) = true).
    { destruct Hbad as [Hb|Hb]; rewrite (bool_decide_eq_true_2 _ Hb);
        [done | apply orb_true_r]. }
    by rewrite Hb. }
  assert (Hsend : send body w
                  = (Err err, (getIAMTokenFromMetadata (time_Now w).2).2)).
  { rewrite send_refresh by done. by rewrite Hiam. }
  pose proof (getIAMTokenFromMetadata_step (time_Now w).2)
    as (Hp & Hc & _).
  pose proof (getIAMTokenFromMetadata_trace (time_Now w).2 Htok) as Ht.
  change (plugin (time_Now w).2) with (plugin w) in Hp, Ht.
  change (trace (time_Now w).2) with (trace w) in Ht.
  change (clock_reads (time_Now w).2) with (S (clock_reads w)) in Hc.
  assert (Hw' : w' = (getIAMTokenFromMetadata (time_Now w).2).2)
    by (unfold w'; by rewrite Hsend).
  split; [by rewrite Hiam|]. split; [by rewrite Hsend|].
  rewrite Hw'. split; [by rewrite Hp|]. split; [by rewrite Hp|].
  split.
  { apply events_of_app. by rewrite Ht, Htr. }
  intros body' Hclock.
  rewrite <- Hw' in *.
  assert (Hneeds' : needs_refresh w').
  { unfold needs_refresh in *. rewrite Hp.
    destruct Hneeds as [?|?]; [by left | right; lia]. }
  destruct (send_refresh_events body' w') as (evs & Hev & _);
    [by rewrite Hp | by rewrite Hp | done |].
  exists evs. rewrite Hev. unfold tokenURL. by rewrite Hp.
Qed.

(** C6.  When [Write] finds no usable token and the fetch of a new one
    fails, [Write] returns the error of the fetch, in the world the fetch
    left, and no POST was made. *)
Theorem Write_aborts_on_credential_failure metrics w points w0 body err w1 :
  range_metrics metrics None w = (Ok points, w0) →
  json_Marshal (mkMessage "" None points) = Ok body →
  url_Parse_error (Endpoint (plugin w0)) = None →
  needs_refresh w0 →
  getIAMTokenFromMetadata (time_Now w0).2 = (Err err, w1) →
  Write metrics w = (Err err, w1)
  ∧ send (body ++ newline) w0 = (Err err, w1)
  ∧ ∀ ev, ev ∈ events_of w w1 → req_Method ev.1 ≠ "POST".
Proof.
  intros Hrun Hjson Hurl Hneeds Hiam.
  assert (Hsend : send (body ++ newline) w0 = (Err err, w1)).
  { rewrite send_refresh by done. by rewrite Hiam. }
  split; [|split; [done|]].
  - unfold Write, bind at 1. rewrite Hrun. unfold bind, lift.
    by rewrite Hjson.
  - destruct (range_metrics_run metrics None w)
      as (chunks & w0' & Hrun' & _ & _ & _ & Ht0 & _).
    rewrite Hrun in Hrun'. injection Hrun' as _ <-.
    pose proof (getIAMTokenFromMetadata_step (time_Now w0).2)
      as (_ & _ & _ & _ & Ht).
    rewrite Hiam in Ht. simpl in Ht. rewrite Ht0 in Ht.
    intros ev. destruct Ht as [Ht|Ht].
    + rewrite (events_of_app w w1 []) by (by rewrite app_nil_r).
      by intros ?%elem_of_nil.
    + rewrite (events_of_app _ _ _ Ht).
      by intros ->%list_elem_of_singleton.
Qed.

Lemma Duration_seconds expiresIn :
  0 < expiresIn ≤ 9223372036 →
  Duration_mul (Duration expiresIn) Second = expiresIn * Second.
Proof.
  intros Hrange. unfold Duration_mul, Duration, Second.
  rewrite (wrap64_small expiresIn) by lia. apply wrap64_small. lia.
Qed.

(** C7 (amended).  When [send] accepts a token whose lifetime, as
    [getIAMTokenFromMetadata] returns it, is positive and at most
    9223372036 seconds, the token it stores is not empty and the
    expiration it stores is the reading of the clock at that moment plus
    the lifetime, which is later than that reading. *)
Theorem accepted_credential_expires_later body w token expiresIn w1 :
  url_Parse_error (Endpoint (plugin w)) = None →
  needs_refresh w →
  getIAMTokenFromMetadata (time_Now w).2 = (Ok (token, expiresIn), w1) →
  0 < expiresIn ≤ 9223372036 →
  let now := clock (clock_reads w1) in
  let w' := (send body w).2 in
  token ≠ ""
  ∧ iamToken (plugin w') = token
  ∧ iamTokenExpirationTime (plugin w') = now + expiresIn * Second
  ∧ now < iamTokenExpirationTime (plugin w').
Proof.
  intros Hurl Hneeds Hiam Hrange now w'.
  destruct (getIAMTokenFromMetadata_Ok _ _ _ _ Hiam) as [Hne _].
  assert (Hexp : iamTokenExpirationTime (plugin w') = now + expiresIn * Second).
  { unfold w'. rewrite send_refresh by done. rewrite Hiam. cbv zeta.
    rewrite deliver_run. simpl. by rewrite Duration_seconds. }
  split; [done|]. split.
  { unfold w'. rewrite send_refresh by done. rewrite Hiam. cbv zeta.
    by rewrite deliver_run. }
  split; [done|]. rewrite Hexp. unfold Second. lia.
Qed.

(** *** What a publish may do *)

Lemma publish_step_same w w' :
  same_config (plugin w) (plugin w') → trace w' = trace w → log w' = log w →
  publish_step w w'.
Proof.
  intros Hc Ht Hl. split; [done|]. split.
  - exists []. rewrite app_nil_r. split; [done | by intros ? ?%elem_of_nil].
  - exists []. rewrite app_nil_r. split; [done | by intros ? ?%elem_of_nil].
Qed.

Lemma publish_step_refl w : publish_step w w.
Proof. by apply publish_step_same; [apply same_config_refl|..]. Qed.

Lemma publish_step_trans w w1 w2 :
  publish_step w w1 → publish_step w1 w2 → publish_step w w2.
Proof.
  intros (Hc1 & (evs1 & Ht1 & He1) & (ls1 & Hl1 & Hle1))
         (Hc2 & (evs2 & Ht2 & He2) & (ls2 & Hl2 & Hle2)).
  destruct Hc1 as (Ha & Hb & Hc & Hd & He & Hf).
  destruct Hc2 as (Ha' & Hb' & Hc' & Hd' & He' & Hf').
  split; [repeat split; congruence|]. split.
  - exists (evs1 ++ evs2)%list. rewrite Ht2, Ht1, app_assoc. split; [done|].
    intros ev [?|Hin]%elem_of_app; [by apply He1|].
    apply He2 in Hin. unfold publish_call in *. by rewrite Hb, Hc, Hd, Hf in Hin.
  - exists (ls1 ++ ls2)%list. rewrite Hl2, Hl1, app_assoc. split; [done|].
    intros entry [?|Hin]%elem_of_app; [by apply Hle1|].
    apply Hle2 in Hin. unfold publish_entry in *. by rewrite Hd in Hin.
Qed.

Lemma publish_step_metadata w w' :
  metadata_step (metadataTokenURL (plugin w)) w w' → publish_step w w'.
Proof.
  intros (Hp & _ & _ & (entries & Hl & Hentries) & Ht).
  split; [rewrite Hp; apply same_config_refl|]. split.
  - destruct Ht as [Ht|Ht].
    + exists []. rewrite app_nil_r. split; [done | by intros ? ?%elem_of_nil].
    + eexists. split; [exact Ht|].
      intros ev ->%list_elem_of_singleton. by left.
  - exists entries. split; [done|]. intros entry Hin. right. by apply Hentries.
Qed.

Lemma publish_step_post a body token w :
  same_config a (plugin w) →
  publish_step w (client_Do (postRequest a body token) w).2.
Proof.
  intros (_ & Hb & Hc & _ & _ & Hf).
  split; [apply same_config_refl|]. split.
  - eexists. split; [done|]. intros ev ->%list_elem_of_singleton.
    right. simpl. by rewrite Hb, Hc, Hf.
  - exists []. simpl. rewrite app_nil_r. split; [done | by intros ? ?%elem_of_nil].
Qed.

Lemma send_step body w : publish_step w (send body w).2.
Proof.
  rewrite send_run. destruct (url_Parse_error _); [apply publish_step_refl|].
  rewrite refreshToken_run. destruct (_ || _).
  - pose proof (getIAMTokenFromMetadata_step (time_Now w).2) as Hstep.
    apply publish_step_metadata in Hstep.
    assert (Hw1 : publish_step w (getIAMTokenFromMetadata (time_Now w).2).2).
    { eapply publish_step_trans; [|exact Hstep].
      by apply publish_step_same; [apply same_config_refl|..]. }
    clear Hstep.
    destruct (getIAMTokenFromMetadata _) as [[[token expiresIn]|err] w1];
      [|done].
    simpl in Hw1. rewrite deliver_run. cbn [snd].
    eapply publish_step_trans; [exact Hw1|].
    eapply publish_step_trans;
      [|apply publish_step_post; destruct Hw1 as [Hc _];
        destruct Hc as (?&?&?&?&?&?); by repeat split].
    apply publish_step_same; [by repeat split | done | done].
  - rewrite deliver_run. cbn [snd].
    eapply publish_step_trans;
      [|apply publish_step_post; apply same_config_refl].
    by apply publish_step_same; [apply same_config_refl|..].
Qed.

Lemma Write_step metrics w : publish_step w (Write metrics w).2.
Proof.
  destruct (Write_run metrics w)
    as (points & w0 & entries & (Hp & _ & Ht & Hl) & Hentries & _ & ->).
  assert (Hw0 : publish_step w w0).
  { split; [rewrite Hp; apply same_config_refl|]. split.
    - exists []. rewrite app_nil_r. split; [done | by intros ? ?%elem_of_nil].
    - exists entries. split; [done|]. intros entry Hin. left. by apply Hentries. }
  destruct (json_Marshal _) as [body|err]; [|done].
  eapply publish_step_trans; [exact Hw0 | apply send_step].
Qed.

Lemma run_writes_step batches w : publish_step w (run_writes batches w).
Proof.
  revert w. induction batches as [|metrics batches IH]; intros w.
  - apply publish_step_refl.
  - simpl. eapply publish_step_trans; [apply Write_step | apply IH].
Qed.

(** What a successful [Connect] did. *)
Lemma Connect_Ok w w' :
  Connect w = (Ok tt, w') →
  same_config
    (mkPlugin (Timeout (plugin w)) (Endpoint (plugin w)) (Service (plugin w))
       (metadataTokenURL (plugin w)) (metadataFolderURL (plugin w))
       (folderID (plugin w')) (iamToken (plugin w))
       (iamTokenExpirationTime (plugin w)))
    (plugin w')
  ∧ folderID (plugin w') ≠ ""
  ∧ ∃ resp,
      events_of w w'
      = [(metadataRequest (metadataFolderURL (plugin w)), Ok resp)]
      ∧ resp_Body resp = Ok (folderID (plugin w')).
Proof.
  unfold Connect, bind at 1, gets at 1. unfold bind at 1.
  cbn [Logf]. unfold bind at 1. rewrite getResponseFromMetadata_run.
  destruct (url_Parse_error _); [done|]. cbv zeta. cbn [client_Do snd].
  destruct (transport _ _) as [resp|] eqn:Htr; [|done].
  destruct (resp_Body resp) as [payload|] eqn:Hbody; [|done].
  destruct (_ || _); [done|].
  unfold bind, set_folderID, modify, gets, with_plugin, Logf. simpl.
  case_bool_decide as Hid; [done|]. simpl in Htr.
  intros [= <-]. simpl. split; [by repeat split|]. split; [done|].
  exists resp. split; [|done]. by apply events_of_app.
Qed.

(** C8.  A successful [Connect] fetched the folder identifier with one GET
    of the folder URL.  Whatever publishes follow, the folder identifier
    stays what [Connect] stored; every round trip they make is the GET of
    the token or a POST to the endpoint with that folder identifier, so
    none is a GET of the folder URL when that differs from the token URL;
    and the log never again announces a fetch of the folder identifier. *)
Theorem folderID_fetched_by_Connect_only w0 w1 batches :
  Connect w0 = (Ok tt, w1) →
  let w2 := run_writes batches w1 in
  (∃ resp,
     events_of w0 w1
     = [(metadataRequest (metadataFolderURL (plugin w0)), Ok resp)]
     ∧ resp_Body resp = Ok (folderID (plugin w1)))
  ∧ folderID (plugin w2) = folderID (plugin w1)
  ∧ (∀ ev, ev ∈ events_of w1 w2 → publish_call (plugin w1) ev.1)
  ∧ (metadataTokenURL (plugin w1) ≠ metadataFolderURL (plugin w1) →
     count_calls "GET" (metadataFolderURL (plugin w1)) (events_of w1 w2)
     = 0%nat)
  ∧ (∀ entry, entry ∈ logged_of w1 w2 →
       entry ≠ (LDebug, "Getting folder ID in "
                        ++ metadataFolderURL (plugin w1))).
Proof.
  intros Hconnect w2.
  destruct (Connect_Ok _ _ Hconnect) as (_ & _ & Hev).
  destruct (run_writes_step batches w1)
    as (Hc & (evs & Ht & Hevs) & (entries & Hl & Hentries)).
  fold w2 in Hc, Ht, Hl.
  rewrite (events_of_app _ _ _ Ht), (logged_of_app _ _ _ Hl).
  split; [done|]. split; [by destruct Hc as (_ & _ & _ & _ & _ & ?)|].
  split; [done|]. split.
  - intros Hne. unfold count_calls.
    apply length_zero_iff_nil, elem_of_nil_inv.
    intros ev [Hcall Hin]%list_elem_of_filter.
    unfold is_call in Hcall.
    apply andb_true_iff in Hcall as [Hm%bool_decide_eq_true Hu%bool_decide_eq_true].
    destruct (Hevs _ Hin) as [Hreq|(Hpost & _)].
    + rewrite Hreq in Hu. simpl in Hu. done.
    + by rewrite Hpost in Hm.
  - intros entry Hin Heq. destruct (Hentries _ Hin) as [Hlvl|Hiam].
    + by rewrite Heq in Hlvl.
    + rewrite Heq in Hiam. discriminate Hiam.
Qed.


End Properties.

(** ** Further properties of the methods *)

Section Coverage.

Context `{Host}.

Implicit Types (w : World) (body url : string).

(** *** [Init] *)

Lemma Init_run w :
  Init w =
  (Ok tt,
   with_plugin w
     (mkPlugin
        (if bool_decide (Timeout (plugin w) ≤ 0) then defaultRequestTimeout
         else Timeout (plugin w))
        (if bool_decide (Endpoint (plugin w) = "") then defaultEndpoint
         else Endpoint (plugin w))
        (if bool_decide (Service (plugin w) = "") then "custom"
         else Service (plugin w))
        (if bool_decide (metadataTokenURL (plugin w) = "")
         then defaultMetadataTokenURL else metadataTokenURL (plugin w))
        (if bool_decide (metadataFolderURL (plugin w) = "")
         then defaultMetadataFolderURL else metadataFolderURL (plugin w))
        (folderID (plugin w)) (iamToken (plugin w))
        (iamTokenExpirationTime (plugin w)))).
Proof.
  destruct w as [[timeout endpoint service tokenURL folderURL id token expiration]
                   reads ranges tr lg].
  cbv [Init bind gets set_Timeout set_Endpoint set_Service
       set_metadataTokenURL set_metadataFolderURL modify ret with_plugin
       plugin Timeout Endpoint Service metadataTokenURL metadataFolderURL
       folderID iamToken iamTokenExpirationTime clock_reads range_calls
       trace log].
  destruct (bool_decide (timeout ≤ 0)), (bool_decide (endpoint = "")),
    (bool_decide (service = "")), (bool_decide (tokenURL = "")),
    (bool_decide (folderURL = "")); reflexivity.
Qed.

Lemma defaults_not_empty :
  0 < defaultRequestTimeout ∧ defaultEndpoint ≠ ""
  ∧ defaultMetadataTokenURL ≠ "" ∧ defaultMetadataFolderURL ≠ "".
Proof. repeat split; discriminate. Qed.

(** X1.  [Init] never fails and leaves every setting usable: a positive
    timeout and non-empty endpoint, service and metadata URLs.  A setting
    that was usable is kept; the folder identifier, the credential and
    the world are untouched. *)
Theorem Init_configured w :
  let a := plugin w in
  let a' := plugin (Init w).2 in
  (Init w).1 = Ok tt
  ∧ (0 < Timeout a' ∧ Endpoint a' ≠ "" ∧ Service a' ≠ ""
     ∧ metadataTokenURL a' ≠ "" ∧ metadataFolderURL a' ≠ "")
  ∧ ((0 < Timeout a → Timeout a' = Timeout a)
     ∧ (Endpoint a ≠ "" → Endpoint a' = Endpoint a)
     ∧ (Service a ≠ "" → Service a' = Service a)
     ∧ (metadataTokenURL a ≠ "" → metadataTokenURL a' = metadataTokenURL a)
     ∧ (metadataFolderURL a ≠ "" →
        metadataFolderURL a' = metadataFolderURL a))
  ∧ (folderID a' = folderID a ∧ iamToken a' = iamToken a
     ∧ iamTokenExpirationTime a' = iamTokenExpirationTime a)
  ∧ (clock_reads (Init w).2 = clock_reads w ∧ trace (Init w).2 = trace w
     ∧ log (Init w).2 = log w).
Proof.
  destruct defaults_not_empty as (Ht & He & Htu & Hfu).
  cbv zeta. rewrite Init_run.
  cbn [fst snd with_plugin plugin Timeout Endpoint Service metadataTokenURL
       metadataFolderURL folderID iamToken iamTokenExpirationTime
       clock_reads trace log].
  split; [done|]. split.
  { repeat split; case_bool_decide; try done. lia. }
  split; [|done].
  repeat split; intros Hset; case_bool_decide; try done. lia.
Qed.

(** X2.  [Init] is idempotent: run again, it changes nothing. *)
Theorem Init_idempotent w : Init (Init w).2 = (Ok tt, (Init w).2).
Proof.
  destruct (Init_configured w)
    as (_ & (Ht & He & Hs & Htu & Hfu) & _ & (Hid & Htok & Hexp) & _).
  cbv zeta in *. rewrite (Init_run (Init w).2).
  rewrite !bool_decide_eq_false_2 by (done || lia).
  f_equal. destruct (Init w).2 as [a reads ranges tr lg]. by destruct a.
Qed.

(** *** [getResponseFromMetadata] *)

(** X3.  [getResponseFromMetadata] returns a body exactly when the URL
    parses, the transport answers, the body of the answer is read, and
    the status code is in [200,300); the body it returns is the one read. *)
Theorem getResponseFromMetadata_Ok_iff url w body :
  (getResponseFromMetadata url w).1 = Ok body
  ↔ url_Parse_error url = None
    ∧ ∃ resp, transport (length (trace w)) (metadataRequest url) = Ok resp
              ∧ resp_Body resp = Ok body
              ∧ 200 ≤ StatusCode resp < 300.
Proof.
  rewrite getResponseFromMetadata_run.
  destruct (url_Parse_error url) as [err|]; [by split; [|intros [? _]]|].
  cbv zeta. destruct (transport _ _) as [resp|err].
  - destruct (resp_Body resp) as [payload|err] eqn:Hbody.
    + destruct (decide (200 ≤ StatusCode resp < 300)) as [Hcode|Hcode].
      * rewrite !bool_decide_eq_false_2 by lia. simpl. split.
        -- intros [= <-]. split; [done|]. by exists resp.
        -- intros (_ & resp' & [= <-] & Hb & _). congruence.
      * assert (Hb : bool_decide (StatusCode resp >= 300)
                     || bool_decide (StatusCode resp < 200) = true).
        { destruct (decide (StatusCode resp < 200)).
          - rewrite (bool_decide_eq_true_2 (StatusCode resp < 200)) by done.
            apply orb_true_r.
          - by rewrite (bool_decide_eq_true_2 (StatusCode resp >= 300)) by lia. }
        rewrite Hb. simpl. split; [done|].
        intros (_ & resp' & [= <-] & _ & ?). done.
    + simpl. split; [done|]. intros (_ & resp' & [= <-] & ? & _). congruence.
  - simpl. split; [done|]. by intros (_ & resp' & ? & _).
Qed.

(** X4.  [getResponseFromMetadata] makes at most one round trip, none
    when the URL does not parse; what it sends is a GET of the URL with
    the header [Metadata-Flavor: Google] and no body; and it changes
    nothing of the receiver. *)
Theorem getResponseFromMetadata_request url w :
  let w' := (getResponseFromMetadata url w).2 in
  plugin w' = plugin w
  ∧ (length (events_of w w') ≤ 1)%nat
  ∧ (url_Parse_error url ≠ None → events_of w w' = [])
  ∧ ∀ req outcome, (req, outcome) ∈ events_of w w' →
      req_Method req = "GET" ∧ req_URL req = url
      ∧ Header_Get req "Metadata-Flavor" = Some "Google"
      ∧ req_Body req = EmptyString
      ∧ outcome = transport (length (trace w)) req.
Proof.
  cbv zeta.
  destruct (getResponseFromMetadata_step url w) as (Hp & _ & _ & _ & Ht).
  split; [done|].
  assert (Hnone : url_Parse_error url ≠ None →
                  trace (getResponseFromMetadata url w).2 = trace w).
  { intros Hurl. rewrite getResponseFromMetadata_run.
    by destruct (url_Parse_error url). }
  destruct Ht as [Ht|Ht].
  - rewrite (events_of_app _ _ []) by (by rewrite app_nil_r).
    split; [simpl; lia|]. split; [done|]. by intros ? ? ?%elem_of_nil.
  - rewrite (events_of_app _ _ _ Ht). split; [done|]. split.
    + intros Hurl. apply Hnone in Hurl. rewrite Hurl in Ht.
      apply (f_equal length) in Ht. rewrite length_app in Ht. simpl in Ht. lia.
    + intros req outcome [= -> ->]%list_elem_of_singleton. by repeat split.
Qed.

(** X5.  When the body of the answer cannot be read,
    [getResponseFromMetadata] returns the error of the read, whatever the
    status code; when the body is read and the status code is outside
    [200,300), it returns an error whose message includes the URL and the
    status code. *)
Theorem getResponseFromMetadata_failure url w resp :
  url_Parse_error url = None →
  transport (length (trace w)) (metadataRequest url) = Ok resp →
  (∀ err, resp_Body resp = Err err →
          (getResponseFromMetadata url w).1 = Err err)
  ∧ (∀ payload, resp_Body resp = Ok payload →
       ¬ 200 ≤ StatusCode resp < 300 →
       ∃ msg, (getResponseFromMetadata url w).1 = Err msg
              ∧ includes msg url
              ∧ includes msg (pretty (StatusCode resp))).
Proof.
  intros Hurl Htr. rewrite getResponseFromMetadata_run, Hurl. cbv zeta.
  rewrite Htr. split.
  - by intros err ->.
  - intros payload -> Hcode.
    assert (Hb : bool_decide (StatusCode resp >= 300)
                 || bool_decide (StatusCode resp < 200) = true).
    { destruct (decide (StatusCode resp < 200)).
      - rewrite (bool_decide_eq_true_2 (StatusCode resp < 200)) by done.
        apply orb_true_r.
      - by rewrite (bool_decide_eq_true_2 (StatusCode resp >= 300)) by lia. }
    rewrite Hb. eexists. split; [done|]. split.
    + apply (includes_middle "unable to fetch instance metadata: [").
    + rewrite !append_assoc. apply includes_end.
Qed.

(** *** [getIAMTokenFromMetadata] *)

(** Two descriptions of the answer of the metadata service agree. *)
Ltac same_answer :=
  repeat match goal with
    | H1 : ?x = Ok ?a, H2 : ?x = Ok ?b |- _ =>
        rewrite H1 in H2; injection H2 as <-
    | H1 : ?x = Ok ?a, H2 : ?x = Err ?b |- _ =>
        rewrite H1 in H2; discriminate H2
    | H : Ok ?a = Ok ?b |- _ => injection H as <-
    end.

(** X6.  [getIAMTokenFromMetadata] returns a token and a lifetime exactly
    when the token URL parses, the metadata service answers with a status
    code in [200,300) and a body that is read and decodes to a non-empty
    access token and a lifetime other than zero; it returns that token
    and that lifetime as an [int]. *)
Theorem getIAMTokenFromMetadata_Ok_iff w token expiresIn :
  (getIAMTokenFromMetadata w).1 = Ok (token, expiresIn)
  ↔ url_Parse_error (metadataTokenURL (plugin w)) = None
    ∧ ∃ resp payload metadata,
        transport (length (trace w))
          (metadataRequest (metadataTokenURL (plugin w))) = Ok resp
        ∧ resp_Body resp = Ok payload
        ∧ 200 ≤ StatusCode resp < 300
        ∧ json_Unmarshal payload = Ok metadata
        ∧ AccessToken metadata = token ∧ token ≠ ""
        ∧ ExpiresIn metadata ≠ 0
        ∧ expiresIn = int_of_int64 (ExpiresIn metadata).
Proof.
  rewrite getIAMTokenFromMetadata_run. cbv zeta.
  set (url := metadataTokenURL (plugin w)).
  set (wl := (Logf LDebug ("Getting new IAM token in " ++ url) w).2).
  pose proof (getResponseFromMetadata_run url wl) as Hrun.
  change (trace wl) with (trace w) in Hrun.
  destruct (getResponseFromMetadata url wl) as [[payload|err] w1] eqn:Hget.
  - destruct (url_Parse_error url) as [?|] eqn:Hurl; [done|]. cbv zeta in Hrun.
    destruct (transport _ _) as [resp|?] eqn:Htr; [|done].
    destruct (resp_Body resp) as [payload'|?] eqn:Hbody; [|done].
    destruct (bool_decide (StatusCode resp >= 300)) eqn:E1; [done|].
    destruct (bool_decide (StatusCode resp < 200)) eqn:E2; [done|].
    apply bool_decide_eq_false in E1, E2.
    injection Hrun as <- _.
    destruct (json_Unmarshal payload) as [metadata|err] eqn:Hjson.
    + destruct (bool_decide (AccessToken metadata = "")) eqn:E3.
      { simpl. split; [done|].
        intros (_ & resp' & payload' & metadata' & Htr' & Hbody' & _ & Hjson'
                & Hacc & Hne & _).
        apply bool_decide_eq_true in E3. same_answer. congruence. }
      destruct (bool_decide (ExpiresIn metadata = 0)) eqn:E4.
      { simpl. split; [done|].
        intros (_ & resp' & payload' & metadata' & Htr' & Hbody' & _ & Hjson'
                & _ & _ & Hne & _).
        apply bool_decide_eq_true in E4. same_answer. congruence. }
      apply bool_decide_eq_false in E3, E4. simpl. split.
      * intros [= <- <-]. split; [done|].
        exists resp, payload, metadata. repeat split; [done|lia|lia|done..].
      * intros (_ & resp' & payload' & metadata' & Htr' & Hbody' & _ & Hjson'
                & Hacc & _ & _ & Hexp).
        same_answer. by subst.
    + simpl. split; [done|].
      intros (_ & resp' & payload' & metadata' & Htr' & Hbody' & _ & Hjson'
              & _).
      same_answer.
  - simpl. split; [done|].
    intros (Hurl & resp & payload & metadata & Htr & Hbody & Hcode & _).
    rewrite Hurl in Hrun. cbv zeta in Hrun. rewrite Htr, Hbody in Hrun.
    rewrite !bool_decide_eq_false_2 in Hrun by lia. done.
Qed.

(** *** [Connect] *)

Lemma Connect_run w :
  Connect w =
  let url := metadataFolderURL (plugin w) in
  let wl := (Logf LDebug ("Getting folder ID in " ++ url) w).2 in
  match getResponseFromMetadata url wl with
  | (Err err, w1) => (Err err, w1)
  | (Ok id, w1) =>
      let w2 := with_plugin w1 (with_folderID (plugin w1) id) in
      if bool_decide (id = "")
      then (Err ("unable to fetch folder id from URL " ++ url
                 ++ ": %!w(<nil>)"), w2)
      else
        (Ok tt,
         (Logf LInfo ("FolderID: " ++ id)
            (Logf LInfo ("Writing to Yandex.Cloud Monitoring URL: "
                         ++ Endpoint (plugin w1)) w2).2).2)
  end.
Proof.
  unfold Connect, bind at 1, gets at 1. unfold bind at 1.
  cbn [Logf]. unfold bind at 1. cbv zeta. cbn [snd].
  destruct (getResponseFromMetadata _ _) as [[id|err] w1]; [|done].
  unfold bind, set_folderID, modify, gets, with_plugin, with_folderID. simpl.
  by case_bool_decide.
Qed.

(** X7.  [Connect] succeeds exactly when the folder URL parses and the
    metadata service answers it with a status code in [200,300) and a
    non-empty body that is read.  It then holds that body as the folder
    identifier, has changed nothing else of the receiver, has made the
    one round trip, and has logged the fetch, the endpoint and the folder
    identifier. *)
Theorem Connect_Ok_iff w :
  let url := metadataFolderURL (plugin w) in
  let w' := (Connect w).2 in
  ((Connect w).1 = Ok tt
   ↔ url_Parse_error url = None
     ∧ ∃ resp id, transport (length (trace w)) (metadataRequest url) = Ok resp
                  ∧ resp_Body resp = Ok id ∧ id ≠ ""
                  ∧ 200 ≤ StatusCode resp < 300)
  ∧ ((Connect w).1 = Ok tt →
     (∃ resp, transport (length (trace w)) (metadataRequest url) = Ok resp
              ∧ resp_Body resp = Ok (folderID (plugin w'))
              ∧ events_of w w' = [(metadataRequest url, Ok resp)])
     ∧ plugin w' = with_folderID (plugin w) (folderID (plugin w'))
     ∧ logged_of w w'
       = [(LDebug, "Getting folder ID in " ++ url);
          (LInfo, "Writing to Yandex.Cloud Monitoring URL: "
                  ++ Endpoint (plugin w));
          (LInfo, "FolderID: " ++ folderID (plugin w'))]).
Proof.
  cbv zeta. rewrite Connect_run. cbv zeta.
  set (url := metadataFolderURL (plugin w)).
  set (wl := (Logf LDebug ("Getting folder ID in " ++ url) w).2).
  pose proof (getResponseFromMetadata_step url wl) as (Hp & _ & _ & Hlog & _).
  pose proof (getResponseFromMetadata_run url wl) as Hrun.
  change (trace wl) with (trace w) in Hrun.
  change (plugin wl) with (plugin w) in Hp.
  destruct (getResponseFromMetadata url wl) as [[id|err] w1] eqn:Hget.
  - destruct (url_Parse_error url) as [?|] eqn:Hurl; [done|]. cbv zeta in Hrun.
    destruct (transport _ _) as [resp|?] eqn:Htr; [|done].
    destruct (resp_Body resp) as [id'|?] eqn:Hbody; [|done].
    destruct (bool_decide (StatusCode resp >= 300)) eqn:E1; [done|].
    destruct (bool_decide (StatusCode resp < 200)) eqn:E2; [done|].
    apply bool_decide_eq_false in E1, E2.
    injection Hrun as <- Hw1. subst w1. simpl in Hp.
    case_bool_decide as Hid.
    + simpl. split; [|done]. split; [done|].
      intros (_ & resp' & id' & Htr' & Hbody' & Hne & _).
      same_answer. congruence.
    + simpl. split.
      * split; [|done]. intros _. split; [done|].
        exists resp, id. repeat split; [done..|lia|lia].
      * intros _. split; [|split].
        -- exists resp. split; [done|]. split; [done|].
           apply events_of_app. simpl. by rewrite Htr.
        -- done.
        -- apply logged_of_app. simpl. by rewrite <- !app_assoc.
  - simpl. split; [|done]. split; [done|].
    intros (Hurl & resp & id & Htr & Hbody & _ & Hcode).
    rewrite Hurl in Hrun. cbv zeta in Hrun. rewrite Htr, Hbody in Hrun.
    rewrite !bool_decide_eq_false_2 in Hrun by lia. done.
Qed.

(** X8.  When the fetch of the folder identifier fails, [Connect] returns
    the error of the fetch and the receiver is what it was.  When the
    fetch returns an empty body, [Connect] returns an error that names
    the folder URL, and the folder identifier it holds from then on is
    the empty string, whatever it held before. *)
Theorem Connect_failure w :
  let url := metadataFolderURL (plugin w) in
  let wl := (Logf LDebug ("Getting folder ID in " ++ url) w).2 in
  let w' := (Connect w).2 in
  (∀ err, (getResponseFromMetadata url wl).1 = Err err →
          (Connect w).1 = Err err ∧ plugin w' = plugin w)
  ∧ ((getResponseFromMetadata url wl).1 = Ok EmptyString →
     (∃ msg, (Connect w).1 = Err msg ∧ includes msg url)
     ∧ plugin w' = with_folderID (plugin w) EmptyString).
Proof.
  cbv zeta. rewrite Connect_run. cbv zeta.
  set (url := metadataFolderURL (plugin w)).
  set (wl := (Logf LDebug ("Getting folder ID in " ++ url) w).2).
  pose proof (getResponseFromMetadata_step url wl) as (Hp & _).
  change (plugin wl) with (plugin w) in Hp.
  destruct (getResponseFromMetadata url wl) as [[id|err] w1]; simpl in *.
  - split; [done|]. intros [= ->]. simpl. split.
    + eexists. split; [done|].
      apply (includes_middle "unable to fetch folder id from URL ").
    + by rewrite Hp.
  - split; [|done]. by intros ? [= <-].
Qed.

(** *** [send] and [Write] *)

(** The round trips of a [send], in full: at most one GET of the token,
    then at most one POST, sent with the token held when [send] returns. *)
Lemma send_shape body w :
  let w' := (send body w).2 in
  let tokenURL := metadataTokenURL (plugin w) in
  ∃ gets posts,
    trace w' = (trace w ++ gets ++ posts)%list
    ∧ (gets = []
       ∨ gets = [(metadataRequest tokenURL,
                  transport (length (trace w)) (metadataRequest tokenURL))])
    ∧ (posts = [] ∧ is_Err (send body w).1 = true
       ∨ let req := postRequest (plugin w) body (iamToken (plugin w')) in
         let outcome := transport (length (trace w) + length gets) req in
         posts = [(req, outcome)]
         ∧ iamToken (plugin w') ≠ ""
         ∧ (send body w).1 = delivery_result outcome).
Proof.
  cbv zeta. rewrite send_run. destruct (url_Parse_error _).
  { exists [], []. rewrite !app_nil_r. split; [done|]. split; [by left|].
    by left. }
  rewrite refreshToken_run.
  destruct (bool_decide (iamToken (plugin w) = "")
            || Time_Before (iamTokenExpirationTime (plugin w))
                 (clock (clock_reads w))) eqn:Hneeds.
  - pose proof (getIAMTokenFromMetadata_step (time_Now w).2)
      as (Hp & _ & _ & _ & Ht).
    change (plugin (time_Now w).2) with (plugin w) in Hp, Ht.
    change (trace (time_Now w).2) with (trace w) in Ht.
    pose proof (getIAMTokenFromMetadata_Ok (time_Now w).2) as HOk.
    destruct (getIAMTokenFromMetadata _) as [[[token expiresIn]|err] w1];
      simpl in Hp, Ht.
    + destruct (HOk _ _ _ eq_refl) as [Hne _]. rewrite deliver_run.
      destruct Ht as [Ht|Ht].
      * exists []. eexists [_]. simpl. rewrite Ht, Nat.add_0_r.
        split; [done|]. split; [by left|]. right. by repeat split.
      * eexists [_]. eexists [_]. simpl. rewrite Ht, length_app.
        split; [by rewrite <- app_assoc|]. split; [by right|]. right.
        by repeat split.
    + destruct Ht as [Ht|Ht].
      * exists [], []. simpl. rewrite Ht, app_nil_r.
        split; [done|]. split; [by left|]. by left.
      * eexists [_]. exists []. simpl. rewrite Ht.
        split; [done|]. split; [by right|]. by left.
  - apply orb_false_iff in Hneeds as [Htoken%bool_decide_eq_false _].
    rewrite deliver_run. exists []. eexists [_]. simpl. rewrite Nat.add_0_r.
    split; [done|]. split; [by left|]. right. by repeat split.
Qed.

(** X9.  When the endpoint does not parse as a URL, [send] returns the
    error of the parse and does nothing else: no reading of the clock, no
    fetch of a token, no round trip.  [Write] then fails too, without a
    round trip and with the receiver as it was. *)
Theorem Write_invalid_endpoint metrics w err :
  url_Parse_error (Endpoint (plugin w)) = Some err →
  (∀ body, send body w = (Err err, w))
  ∧ is_Err (Write metrics w).1 = true
  ∧ events_of w (Write metrics w).2 = []
  ∧ plugin (Write metrics w).2 = plugin w
  ∧ clock_reads (Write metrics w).2 = clock_reads w.
Proof.
  intros Hurl.
  assert (Hsend : ∀ body w0, plugin w0 = plugin w → send body w0 = (Err err, w0)).
  { intros body w0 Hw0. by rewrite send_run, Hw0, Hurl. }
  split; [intros body; by apply Hsend|].
  destruct (Write_run metrics w)
    as (points & w0 & entries & (Hp & Hc & Ht & _) & _ & _ & ->).
  destruct (json_Marshal _) as [body|err'].
  - rewrite (Hsend _ w0 Hp). simpl. split; [done|].
    split; [|done]. apply (events_of_app _ _ []). by rewrite app_nil_r.
  - simpl. split; [done|].
    split; [|done]. apply (events_of_app _ _ []). by rewrite app_nil_r.
Qed.

(** X10.  Every POST that [send] makes goes to the endpoint, with the
    folder identifier and the service as query parameters, the content
    type [application/json], the body given to [send], and the header
    [Authorization: Bearer] followed by the token the plugin holds when
    [send] returns, which is never empty. *)
Theorem send_post_request body w req outcome :
  (req, outcome) ∈ events_of w (send body w).2 →
  req_Method req = "POST" →
  let token := iamToken (plugin (send body w).2) in
  token ≠ ""
  ∧ req_URL req = Endpoint (plugin w)
  ∧ req_Query req
    = [("folderId", folderID (plugin w)); ("service", Service (plugin w))]
  ∧ Header_Get req "Authorization" = Some ("Bearer " ++ token)
  ∧ Header_Get req "Content-Type" = Some "application/json"
  ∧ req_Body req = body.
Proof.
  intros Hin Hpost. cbv zeta.
  destruct (send_shape body w) as (gets & posts & Ht & Hgets & Hposts).
  rewrite (events_of_app _ _ _ Ht) in Hin.
  apply elem_of_app in Hin as [Hin|Hin].
  { destruct Hgets as [->| ->].
    - by apply elem_of_nil in Hin.
    - apply list_elem_of_singleton in Hin. injection Hin as -> _. done. }
  destruct Hposts as [[-> _]|(-> & Hne & _)].
  { by apply elem_of_nil in Hin. }
  apply list_elem_of_singleton in Hin. injection Hin as -> _.
  split; [done|]. by repeat split.
Qed.

(** X11.  A publish never retries: the round trips of a [Write] are at
    most one GET of the token URL followed by at most one POST to the
    endpoint. *)
Theorem Write_no_retry metrics w :
  ∃ gets posts,
    events_of w (Write metrics w).2 = (gets ++ posts)%list
    ∧ (length gets ≤ 1)%nat ∧ (length posts ≤ 1)%nat
    ∧ (∀ ev, ev ∈ gets →
         req_Method ev.1 = "GET"
         ∧ req_URL ev.1 = metadataTokenURL (plugin w))
    ∧ (∀ ev, ev ∈ posts →
         req_Method ev.1 = "POST" ∧ req_URL ev.1 = Endpoint (plugin w)).
Proof.
  destruct (Write_run metrics w)
    as (points & w0 & entries & (Hp & _ & Ht0 & _) & _ & _ & ->).
  destruct (json_Marshal _) as [body|err].
  - destruct (send_shape (body ++ newline) w0)
      as (gets & posts & Ht & Hgets & Hposts).
    cbv zeta in Hgets, Hposts. rewrite Ht0, Hp in *.
    exists gets, posts. split; [by apply events_of_app|].
    split; [|split; [|split]].
    + destruct Hgets as [->| ->]; simpl; lia.
    + destruct Hposts as [[-> _]|(-> & _)]; simpl; lia.
    + intros ev Hin. destruct Hgets as [->| ->].
      * by apply elem_of_nil in Hin.
      * by apply list_elem_of_singleton in Hin as ->.
    + intros ev Hin. destruct Hposts as [[-> _]|(-> & _)].
      * by apply elem_of_nil in Hin.
      * by apply list_elem_of_singleton in Hin as ->.
  - exists [], []. split.
    { apply events_of_app. simpl. by rewrite app_nil_r. }
    split; [simpl; lia|]. split; [simpl; lia|].
    split; by intros ? ?%elem_of_nil.
Qed.

(** *** The encoding of the batch *)

Lemma json_metrics_Err_iff ps err :
  json_metrics ps = Err err
  ↔ ∃ ps1 p ps2,
      ps = (ps1 ++ p :: ps2)%list
      ∧ Forall (λ q, is_Err (json_float (Value q)) = false) ps1
      ∧ json_float (Value p) = Err err.
Proof.
  induction ps as [|p ps IH]; simpl.
  - split; [done|]. intros (ps1 & ? & ? & Heq & _). by destruct ps1.
  - unfold json_metric at 1.
    destruct (json_float (Value p)) as [value|err'] eqn:Hp.
    + destruct (json_metrics ps) as [ss|err'] eqn:Hps.
      * split; [done|]. intros (ps1 & q & ps2 & Heq & Hall & Hq).
        destruct ps1 as [|p1 ps1]; simpl in Heq; injection Heq as -> ->.
        -- congruence.
        -- apply Forall_cons in Hall as [_ Hall].
           assert (Hcontra : (Ok ss : result (list string)) = Err err); [|done].
           apply IH. by exists ps1, q, ps2.
      * split.
        -- intros [= ->]. destruct (proj1 IH eq_refl)
             as (ps1 & q & ps2 & -> & Hall & Hq).
           exists (p :: ps1), q, ps2. split; [done|]. split; [|done].
           constructor; [by rewrite Hp | done].
        -- intros (ps1 & q & ps2 & Heq & Hall & Hq).
           destruct ps1 as [|p1 ps1]; simpl in Heq; injection Heq as -> ->.
           ++ congruence.
           ++ apply Forall_cons in Hall as [_ Hall]. f_equal.
              assert (Hgoal : (Err err' : result (list string)) = Err err);
                [|by injection Hgoal].
              apply IH. by exists ps1, q, ps2.
    + split.
      * intros [= ->]. exists [], p, ps. by repeat split.
      * intros (ps1 & q & ps2 & Heq & Hall & Hq).
        destruct ps1 as [|p1 ps1]; simpl in Heq; injection Heq as -> ->.
        -- congruence.
        -- apply Forall_cons in Hall as [Hp1 _]. by rewrite Hp in Hp1.
Qed.

(** X12.  The encoding of a message fails exactly when one of its points
    has a value that does not encode (NaN or an infinity), and the error
    is that of the first such point. *)
Theorem json_Marshal_Err_iff msg err :
  json_Marshal msg = Err err
  ↔ ∃ ps1 p ps2,
      msg_Metrics msg = Some (ps1 ++ p :: ps2)%list
      ∧ Forall (λ q, is_Err (json_float (Value q)) = false) ps1
      ∧ json_float (Value p) = Err err.
Proof.
  unfold json_Marshal, json_slice.
  destruct (msg_Metrics msg) as [ps|].
  - pose proof (json_metrics_Err_iff ps err) as Hiff.
    destruct (json_metrics ps) as [ss|err'].
    + split; [done|]. intros (ps1 & p & ps2 & [= ->] & Hall & Hp).
      assert (Hcontra : (Ok ss : result (list string)) = Err err); [|done].
      apply Hiff. by exists ps1, p, ps2.
    + split.
      * intros [= ->]. destruct (proj1 Hiff eq_refl)
          as (ps1 & p & ps2 & -> & Hall & Hp).
        by exists ps1, p, ps2.
      * intros (ps1 & p & ps2 & [= ->] & Hall & Hp).
        assert (Hsame : (Err err' : result (list string)) = Err err).
        { apply Hiff. by exists ps1, p, ps2. }
        by injection Hsame as ->.
  - split; [done|]. by intros (? & ? & ? & ? & _).
Qed.

(** X13.  When the encoding of the translated points fails, [Write]
    returns the error of the encoding before anything is sent: no round
    trip, no reading of the clock, no fetch of a token. *)
Theorem Write_encoding_failure metrics w points w0 err :
  range_metrics metrics None w = (Ok points, w0) →
  json_Marshal (mkMessage "" None points) = Err err →
  Write metrics w = (Err err, w0)
  ∧ events_of w w0 = []
  ∧ plugin w0 = plugin w
  ∧ clock_reads w0 = clock_reads w.
Proof.
  intros Hrun Hjson.
  destruct (range_metrics_run metrics None w)
    as (chunks & w0' & Hrun' & _ & Hp & Hc & Ht & _).
  rewrite Hrun in Hrun'. injection Hrun' as _ <-.
  split; [|split; [|done]].
  - unfold Write, bind at 1. rewrite Hrun. unfold bind, lift. by rewrite Hjson.
  - apply (events_of_app _ _ []). by rewrite app_nil_r.
Qed.

Lemma range_metrics_points metrics w points w0 :
  range_metrics metrics None w = (Ok points, w0) →
  Name <$> default [] points
  = metrics ≫= (λ m, (λ field, m_Name m ++ "_" ++ Key field)
                        <$> numeric_fields m)
  ∧ (points = None ↔ metrics ≫= numeric_fields = []).
Proof.
  intros Hrun.
  destruct (range_metrics_run metrics None w)
    as (chunks & w0' & Hrun' & Hall & _).
  rewrite Hrun in Hrun'. injection Hrun' as -> _.
  assert (Hnames : Name <$> concat chunks
                   = metrics ≫= (λ m, (λ field, m_Name m ++ "_" ++ Key field)
                                         <$> numeric_fields m)).
  { clear Hrun. induction Hall as [|m chunk metrics chunks [Hn _] _ IH];
      [done|].
    simpl. by rewrite fmap_app, IH, Hn. }
  assert (Hnil : concat chunks = [] ↔ metrics ≫= numeric_fields = []).
  { clear Hrun Hnames.
    induction Hall as [|m chunk metrics chunks [Hn _] _ IH]; [done|].
    simpl. split.
    - intros [-> Hrest]%app_eq_nil. simpl in Hn.
      symmetry in Hn. apply fmap_nil_inv in Hn. rewrite Hn. simpl.
      by apply IH.
    - intros [Hm Hrest]%app_eq_nil. rewrite Hm in Hn. simpl in Hn.
      apply fmap_nil_inv in Hn. rewrite Hn. simpl. by apply IH. }
  destruct (concat chunks) as [|p ps] eqn:Hconcat; simpl in *.
  - split; [done|]. split; [|done]. intros _. by apply Hnil.
  - split; [done|]. split; [done|]. intros Hempty.
    by apply Hnil in Hempty.
Qed.

Lemma json_metrics_Ok ps elements :
  json_metrics ps = Ok elements →
  Forall2 (λ p element, json_metric p = Ok element) ps elements.
Proof.
  revert elements. induction ps as [|p ps IH]; intros elements; simpl.
  - intros [= <-]. constructor.
  - destruct (json_metric p) as [element|] eqn:Hp; [|done].
    destruct (json_metrics ps) as [rest|]; [|done].
    intros [= <-]. constructor; [done | by apply IH].
Qed.

(** X14.  The body of every POST that [Write] makes is the bytes
    [{"metrics":], a value, [}] and a line feed, so an object with the
    single member [metrics].  The value is decided by the points that the
    loops of [Write] translated, one for each coercible field of the
    batch and in that order: [null] when there is none, and otherwise
    [[], the encodings of those points as [json.Marshal] gives them, one
    for each point and in their order, joined by commas, and []]. *)
Theorem Write_body_shape metrics w req outcome :
  (req, outcome) ∈ events_of w (Write metrics w).2 →
  req_Method req = "POST" →
  ∃ points w0 value,
    range_metrics metrics None w = (Ok points, w0)
    ∧ Name <$> default [] points
      = metrics ≫= (λ m, (λ field, m_Name m ++ "_" ++ Key field)
                            <$> numeric_fields m)
    ∧ (points = None ↔ metrics ≫= numeric_fields = [])
    ∧ req_Body req
      = ("{" ++ (dquote ++ "metrics" ++ dquote ++ ":" ++ value) ++ "}")
        ++ newline
    ∧ match points with
      | None => value = "null"
      | Some ps =>
          ∃ elements,
            Forall2 (λ p element, json_metric p = Ok element) ps elements
            ∧ value = "[" ++ String.concat "," elements ++ "]"
      end.
Proof.
  destruct (Write_run metrics w)
    as (points & w0 & entries & (Hp & _ & Ht & _) & _ & Hrun & ->).
  destruct (range_metrics_points _ _ _ _ Hrun) as [Hnames Hnone].
  unfold json_Marshal, json_slice. simpl.
  unfold events_of. rewrite <- Ht. fold (events_of w0).
  destruct points as [ps|].
  - destruct (json_metrics ps) as [elements|err] eqn:Hjson.
    + intros Hin Hpost.
      destruct (send_post _ _ _ _ Hin Hpost) as [[token ->] _].
      eexists (Some ps), w0, _. split; [done|]. split; [done|].
      split; [done|]. split; [reflexivity|].
      exists elements. split; [by apply json_metrics_Ok | done].
    + simpl. rewrite drop_all. by intros ?%elem_of_nil.
  - intros Hin Hpost.
    destruct (send_post _ _ _ _ Hin Hpost) as [[token ->] _].
    eexists None, w0, _. split; [done|]. split; [done|].
    split; [done|]. split; [reflexivity|]. done.
Qed.

(** *** The credential over time *)

(** What [send] stores after a successful fetch. *)
Lemma send_stores body w token expiresIn w1 :
  url_Parse_error (Endpoint (plugin w)) = None →
  needs_refresh w →
  getIAMTokenFromMetadata (time_Now w).2 = (Ok (token, expiresIn), w1) →
  token ≠ ""
  ∧ iamToken (plugin (send body w).2) = token
  ∧ iamTokenExpirationTime (plugin (send body w).2)
    = Time_Add (clock (clock_reads w1))
        (Duration_mul (Duration expiresIn) Second).
Proof.
  intros Hurl Hneeds Hiam.
  destruct (getIAMTokenFromMetadata_Ok _ _ _ _ Hiam) as [Hne _].
  split; [done|].
  rewrite send_refresh by done. rewrite Hiam. cbv zeta.
  by rewrite deliver_run.
Qed.

Lemma Duration_seconds_signed expiresIn :
  - 9223372036 ≤ expiresIn ≤ 9223372036 →
  Duration_mul (Duration expiresIn) Second = expiresIn * Second.
Proof.
  intros Hrange. unfold Duration_mul, Duration, Second.
  rewrite (wrap64_small expiresIn) by lia. apply wrap64_small. lia.
Qed.

(** X15.  A token accepted with a lifetime of [e] seconds, positive and
    at most 9223372036, at the reading [now] of the clock is held exactly
    until [now + e s]: a later [send] fetches a new token if and only if
    its reading of the clock is beyond that instant, and otherwise makes
    the POST with the held token as its only round trip and leaves the
    receiver as it was. *)
Theorem send_caching_window body w token expiresIn w1 :
  url_Parse_error (Endpoint (plugin w)) = None →
  needs_refresh w →
  getIAMTokenFromMetadata (time_Now w).2 = (Ok (token, expiresIn), w1) →
  0 < expiresIn ≤ 9223372036 →
  let expiry := clock (clock_reads w1) + expiresIn * Second in
  ∀ w2 body2, plugin w2 = plugin (send body w).2 →
    (needs_refresh w2 ↔ expiry < clock (clock_reads w2))
    ∧ (clock (clock_reads w2) ≤ expiry →
       let req := postRequest (plugin w2) body2 token in
       events_of w2 (send body2 w2).2
       = [(req, transport (length (trace w2)) req)]
       ∧ plugin (send body2 w2).2 = plugin w2).
Proof.
  intros Hurl Hneeds Hiam Hrange expiry w2 body2 Hw2.
  destruct (send_stores body _ _ _ _ Hurl Hneeds Hiam) as (Hne & Htoken & Hexp).
  rewrite Duration_seconds_signed in Hexp by lia. fold expiry in Hexp.
  destruct (send_config body w) as (_ & Hend & _).
  assert (Hiff : needs_refresh w2 ↔ expiry < clock (clock_reads w2)).
  { unfold needs_refresh. rewrite Hw2, Htoken, Hexp. unfold Time_Add.
    split; [by intros [?|?] | by right]. }
  split; [done|]. intros Hq. cbv zeta.
  assert (Hvalid : ¬ needs_refresh w2) by (rewrite Hiff; lia).
  rewrite send_no_refresh by (by rewrite ?Hw2, ?Hend). cbv zeta.
  split; [|done]. apply events_of_app. simpl. by rewrite Hw2, Htoken.
Qed.

(** X16.  A token accepted with a negative lifetime (not below
    -9223372036 seconds) is stored with an expiration before the moment
    it is stored, so it is never used again: every later [send] whose
    reading of the clock is not earlier fetches a new token. *)
Theorem negative_lifetime_never_reused body w token expiresIn w1 :
  url_Parse_error (Endpoint (plugin w)) = None →
  needs_refresh w →
  getIAMTokenFromMetadata (time_Now w).2 = (Ok (token, expiresIn), w1) →
  - 9223372036 ≤ expiresIn < 0 →
  let now := clock (clock_reads w1) in
  iamTokenExpirationTime (plugin (send body w).2) = now + expiresIn * Second
  ∧ iamTokenExpirationTime (plugin (send body w).2) < now
  ∧ ∀ w2, plugin w2 = plugin (send body w).2 →
          now ≤ clock (clock_reads w2) → needs_refresh w2.
Proof.
  intros Hurl Hneeds Hiam Hrange now.
  destruct (send_stores body _ _ _ _ Hurl Hneeds Hiam) as (_ & _ & Hexp).
  rewrite Duration_seconds_signed in Hexp by lia. unfold Time_Add in Hexp.
  fold now in Hexp. rewrite Hexp.
  split; [done|]. split; [unfold Second; lia|].
  intros w2 Hw2 Hclock. right. rewrite Hw2, Hexp. unfold Second. lia.
Qed.

(** *** From the registry to the publishes *)

Lemma Connect_extends w :
  ∃ evs, trace (Connect w).2 = (trace w ++ evs)%list.
Proof.
  rewrite Connect_run. cbv zeta.
  pose proof (getResponseFromMetadata_step (metadataFolderURL (plugin w))
                (Logf LDebug ("Getting folder ID in "
                              ++ metadataFolderURL (plugin w)) w).2)
    as (_ & _ & _ & _ & Hstep).
  change (trace (Logf _ _ w).2) with (trace w) in Hstep.
  assert (Hext : ∃ evs, trace (getResponseFromMetadata
                                 (metadataFolderURL (plugin w))
                                 (Logf LDebug ("Getting folder ID in "
                                    ++ metadataFolderURL (plugin w)) w).2).2
                        = (trace w ++ evs)%list).
  { destruct Hstep as [->| ->]; [exists []; by rewrite app_nil_r | by eexists]. }
  destruct (getResponseFromMetadata _ _) as [[id|err] w1]; [|done].
  by case_bool_decide.
Qed.

(** X17.  For the plugin as the registry constructs it, whatever the
    configuration: after [Init] the metadata URLs are the defaults; if
    [Connect] then succeeds, the folder identifier it stored is not empty
    and stays the same through any sequence of publishes, and over
    [Connect] and all the publishes the folder URL is fetched exactly
    once. *)
Theorem registered_plugin_fetches_folderID_once
    timeout endpoint service w0 w1 batches :
  plugin w0 = registered_plugin timeout endpoint service →
  Connect (Init w0).2 = (Ok tt, w1) →
  let w2 := run_writes batches w1 in
  metadataTokenURL (plugin w1) = defaultMetadataTokenURL
  ∧ metadataFolderURL (plugin w1) = defaultMetadataFolderURL
  ∧ folderID (plugin w1) ≠ ""
  ∧ folderID (plugin w2) = folderID (plugin w1)
  ∧ count_calls "GET" defaultMetadataFolderURL (events_of w0 w2) = 1%nat.
Proof.
  intros Hw0 Hconnect w2.
  pose proof (Init_run w0) as HInit. rewrite Hw0 in HInit.
  unfold registered_plugin in HInit. simpl in HInit.
  assert (HI : metadataTokenURL (plugin (Init w0).2) = defaultMetadataTokenURL
               ∧ metadataFolderURL (plugin (Init w0).2)
                 = defaultMetadataFolderURL
               ∧ trace (Init w0).2 = trace w0).
  { by rewrite HInit. }
  destruct HI as (HIt & HIf & HItr).
  destruct (Connect_Ok _ _ Hconnect) as (Hc & Hne & resp & Hev & _).
  destruct Hc as (_ & _ & _ & Htu & Hfu & _). simpl in Htu, Hfu.
  rewrite HIt in Htu. rewrite HIf in Hfu, Hev.
  destruct (run_writes_step batches w1)
    as (Hc2 & (evs & Ht & Hevs) & _).
  fold w2 in Hc2, Ht.
  split; [done|]. split; [done|]. split; [done|].
  split; [by destruct Hc2 as (_ & _ & _ & _ & _ & ?)|].
  assert (Htr1 : trace w1
                 = (trace w0 ++ [(metadataRequest defaultMetadataFolderURL,
                                  Ok resp)])%list).
  { destruct (Connect_extends (Init w0).2) as (evs1 & Hext).
    rewrite Hconnect in Hext. simpl in Hext.
    rewrite (events_of_app _ _ _ Hext) in Hev. by rewrite Hext, Hev, HItr. }
  rewrite (events_of_app w0 w2
             ((metadataRequest defaultMetadataFolderURL, Ok resp) :: evs)).
  2: { rewrite Ht, Htr1, <- app_assoc. done. }
  change (?x :: evs) with ([x] ++ evs)%list.
  rewrite count_calls_app, count_calls_metadataRequest.
  assert (Hzero : count_calls "GET" defaultMetadataFolderURL evs = 0%nat);
    [|by rewrite Hzero].
  unfold count_calls. apply length_zero_iff_nil, elem_of_nil_inv.
  intros ev [Hcall Hin]%list_elem_of_filter. unfold is_call in Hcall.
  apply andb_true_iff in Hcall
    as [Hm%bool_decide_eq_true Hu%bool_decide_eq_true].
  destruct (Hevs _ Hin) as [Hreq|(Hpost & _)].
  - rewrite Hreq, Htu in Hu. vm_compute in Hu. discriminate Hu.
  - by rewrite Hpost in Hm.
Qed.

End Coverage.

(** ** The properties at the example hosts *)

(** The end-to-end scenario: [cpu{host=vm1,name=core0}] yields the points
    [cpu_usage_idle] and [cpu_usage_user], the string field is skipped. *)
Example cpu_metric_translation :
  match (range_metrics (H := steady_host) [cpu_metric _ _] None initial_world).1
  with
  | Ok points => Name <$> default [] points
  | Err _ => []
  end = ["cpu_usage_idle"; "cpu_usage_user"]
  ∧ log (range_metrics (H := steady_host) [cpu_metric _ _] None initial_world).2
    = [(LError, "Skipping value: cannot convert idle to float64")].
Proof. split; reflexivity. Qed.

Example cpu_tags_translation :
  replaceReservedTagNames (map_to_list cpu_tags)
  = <["host" := "vm1"]> (<["_name" := "core0"]> ∅).
Proof. by vm_compute. Qed.

(** At 1000 s the metadata service hands out [t1] for 3600 s: the plugin
    holds [t1] until 4600 s. *)
Lemma send_token_caching_witness :
  let w1 := (send (H := steady_host) "batch" initial_world).2 in
  iamToken (plugin w1) = "t1"
  ∧ iamTokenExpirationTime (plugin w1) = 1000 * Second + 3600 * Second.
Proof.
  destruct (send_token_caching (H := steady_host) "batch" initial_world
              (mkResponse 200 "200 OK" (Ok "t1/3600")) "t1/3600" "Bearer")
    as (Htoken & Hexp & _).
  - reflexivity.
  - reflexivity.
  - left. reflexivity.
  - reflexivity.
  - reflexivity.
  - simpl. lia.
  - reflexivity.
  - split; [exact Htoken | exact Hexp].
Defined.

(** The refresh is at T = 1000 s and the next [send] reads the clock at
    4600 s = T + 3600 s: the token is used again, with no call of the
    metadata service. *)
Lemma token_reused_at_expiry_instant :
  let w1 := (send (H := expiry_host) "batch1" initial_world).2 in
  let w2 := (send (H := expiry_host) "batch2" w1).2 in
  @clock expiry_host 1 = 1000 * Second
  ∧ iamToken (plugin w1) = "t1"
  ∧ iamTokenExpirationTime (plugin w1) = 1000 * Second + 3600 * Second
  ∧ @clock expiry_host (clock_reads w1) = 1000 * Second + 3600 * Second
  ∧ count_calls "GET" defaultMetadataTokenURL (events_of w1 w2) = 0%nat
  ∧ Header_Get (List.last (trace w2) (metadataRequest EmptyString, Err EmptyString)).1
      "Authorization" = Some "Bearer t1".
Proof. by vm_compute. Qed.

Lemma refresh_failure_keeps_credential_witness :
  let w' := (send (H := empty_token_host) "batch" initial_world).2 in
  is_Err (send (H := empty_token_host) "batch" initial_world).1 = true
  ∧ iamToken (plugin w') = EmptyString
  ∧ iamTokenExpirationTime (plugin w') = 0.
Proof.
  destruct (refresh_failure_keeps_credential (H := empty_token_host)
              "batch" initial_world
              (mkResponse 200 "200 OK" (Ok "/3600")) "/3600"
              (mkMetadataIamToken EmptyString 3600 "Bearer"))
    as (_ & Hres & Htoken & Hexp & _).
  - reflexivity.
  - reflexivity.
  - left. reflexivity.
  - reflexivity.
  - reflexivity.
  - simpl. lia.
  - reflexivity.
  - left. reflexivity.
  - split; [by rewrite Hres | split; [exact Htoken | exact Hexp]].
Defined.

(** Whatever the order of the loop over [{name: core0, _name: legacy}],
    one of the two tags is not in the output with its value; in the order
    [name], [_name] the value of [name] is lost. *)
Lemma replaceReservedTagNames_collision :
  range_of colliding_tags [("name", "core0"); ("_name", "legacy")]
  ∧ colliding_tags !! "name" = Some "core0"
  ∧ replaceReservedTagNames [("name", "core0"); ("_name", "legacy")] !! "_name"
    = Some "legacy"
  ∧ ¬ ∃ order,
        range_of colliding_tags order
        ∧ ∀ tagName tagValue,
            colliding_tags !! tagName = Some tagValue →
            replaceReservedTagNames order !! label_key tagName = Some tagValue.
Proof.
  split; [|split; [|split]].
  - unfold range_of. vm_compute map_to_list. apply Permutation_swap.
  - reflexivity.
  - by vm_compute.
  - intros (order & _ & Hall).
    pose proof (Hall "name" "core0" eq_refl) as H1.
    pose proof (Hall "_name" "legacy" eq_refl) as H2.
    change (label_key "name") with "_name" in H1.
    change (label_key "_name") with "_name" in H2.
    rewrite H1 in H2. discriminate H2.
Qed.

Lemma replaceReservedTagNames_labels_witness :
  replaceReservedTagNames (map_to_list cpu_tags) !! "_name" = Some "core0"
  ∧ replaceReservedTagNames (map_to_list cpu_tags) !! "host" = Some "vm1".
Proof.
  destruct (replaceReservedTagNames_labels cpu_tags (map_to_list cpu_tags))
    as (Hname & Hother & _).
  - unfold range_of. reflexivity.
  - intros v1 v2 _ Hnone. discriminate Hnone.
  - split.
    + apply Hname. reflexivity.
    + apply Hother; [discriminate | reflexivity].
Defined.

Lemma replaceReservedTagNames_idempotent_witness :
  replaceReservedTagNames
    (map_to_list (replaceReservedTagNames (map_to_list cpu_tags)))
  = replaceReservedTagNames (map_to_list cpu_tags).
Proof.
  apply (replaceReservedTagNames_idempotent cpu_tags);
    unfold range_of; reflexivity.
Defined.

(** The backend answers the POST with 200 and the body of the answer
    cannot be read: the publish fails, with the code 200 in its message. *)
Lemma success_status_with_unreadable_body :
  let published := Write (H := unreadable_body_host) [text_metric _ _]
                     token_world in
  events_of token_world published.2
  = [(postRequest (plugin token_world) null_batch_body "t1",
      Ok (mkResponse 200 "200 OK" (Err "unexpected EOF")))]
  ∧ published.1 = Err "failed to write batch: [200] 200 OK".
Proof. by vm_compute. Qed.

(** The backend answers the POST with 404: the publish fails, and the
    message has the code and the status text. *)
Lemma Write_delivery_outcome_witness :
  ∃ msg, (Write (H := not_found_host) [text_metric _ _] token_world).1 = Err msg
         ∧ includes msg "404" ∧ includes msg "404 Not Found".
Proof.
  pose proof (Write_delivery_outcome (H := not_found_host)
                [text_metric _ _] token_world
                (postRequest (plugin token_world)
                   null_batch_body "t1")
                (Ok (mkResponse 404 "404 Not Found" (Ok EmptyString))))
    as Hout.
  simpl in Hout. apply Hout.
  - vm_compute. left.
  - reflexivity.
  - lia.
Defined.

(** The metadata service hands out an empty token: the publish returns
    the error of the fetch and makes no POST. *)
Lemma Write_aborts_on_credential_failure_witness :
  is_Err (Write (H := empty_token_host) [text_metric _ _] initial_world).1 = true
  ∧ count_calls "POST" defaultEndpoint
      (trace (Write (H := empty_token_host) [text_metric _ _] initial_world).2)
    = 0%nat.
Proof.
  destruct (Write_aborts_on_credential_failure (H := empty_token_host)
              [text_metric _ _] initial_world None
              (range_metrics (H := empty_token_host) [text_metric _ _] None
                 initial_world).2
              ("{" ++ dquote ++ "metrics" ++ dquote ++ ":null}")
              (("unable to fetch authentication credentials "
                ++ defaultMetadataTokenURL) ++ ": %!w(<nil>)")
              (Write (H := empty_token_host) [text_metric _ _] initial_world).2)
    as (HW & _ & _).
  - reflexivity.
  - reflexivity.
  - reflexivity.
  - left. reflexivity.
  - by vm_compute.
  - split; [by rewrite HW | by vm_compute].
Defined.

(** The metadata service hands out [t1] with the lifetime -1 and the
    plugin accepts it at 1000 s: the expiration it stores, 999 s, is
    earlier than the moment at which it is stored. *)
Lemma negative_lifetime_accepted :
  let w1 := (send (H := negative_host) "batch" initial_world).2 in
  (getIAMTokenFromMetadata (H := negative_host)
     (time_Now (H := negative_host) initial_world).2).1 = Ok ("t1", -1)
  ∧ iamToken (plugin w1) = "t1"
  ∧ @clock negative_host 1 = 1000 * Second
  ∧ iamTokenExpirationTime (plugin w1) = 999 * Second.
Proof. by vm_compute. Qed.

Lemma accepted_credential_expires_later_witness :
  let w' := (send (H := steady_host) "batch" initial_world).2 in
  1000 * Second < iamTokenExpirationTime (plugin w').
Proof.
  destruct (accepted_credential_expires_later (H := steady_host)
              "batch" initial_world "t1" 3600
              (getIAMTokenFromMetadata (H := steady_host)
                 (time_Now (H := steady_host) initial_world).2).2)
    as (_ & _ & _ & Hlater).
  - reflexivity.
  - left. reflexivity.
  - by vm_compute.
  - lia.
  - exact Hlater.
Defined.

(** [Connect] stores [b1gfolder]; two publishes later it is still there
    and the folder URL was not asked again. *)
Lemma folderID_fetched_by_Connect_only_witness :
  let w1 := (Connect (H := steady_host) initial_world).2 in
  let w2 := run_writes (H := steady_host) [[cpu_metric _ _]; [cpu_metric _ _]] w1 in
  folderID (plugin w1) = "b1gfolder"
  ∧ folderID (plugin w2) = folderID (plugin w1)
  ∧ count_calls "GET" (metadataFolderURL (plugin w1)) (events_of w1 w2) = 0%nat.
Proof.
  destruct (folderID_fetched_by_Connect_only (H := steady_host) initial_world
              (Connect (H := steady_host) initial_world).2
              [[cpu_metric _ _]; [cpu_metric _ _]])
    as (_ & Hid & _ & Hcount & _).
  - by vm_compute.
  - split; [reflexivity|]. split; [exact Hid|].
    apply Hcount. discriminate.
Defined.

(** The only field of the batch is a string: the body is
    [{"metrics":null}] and a line feed, and it is sent. *)
Lemma Write_empty_batch_witness :
  ∃ outcome,
    events_of token_world (Write (H := steady_host) [text_metric _ _] token_world).2
    = [(postRequest (plugin token_world) null_batch_body
          "t1", outcome)].
Proof.
  destruct (Write_empty_batch (H := steady_host) [text_metric _ _] token_world)
    as (w0 & _ & _ & _ & _ & Hsent).
  - intros m field Hm Hfield.
    apply list_elem_of_singleton in Hm. subst m.
    apply list_elem_of_singleton in Hfield. subst field. reflexivity.
  - apply Hsent.
    + reflexivity.
    + intros [Hempty|Hexpired]; [discriminate Hempty|].
      vm_compute in Hexpired. discriminate Hexpired.
Defined.

(** ** The further properties at the example hosts *)

(** The metadata service answers 503: the error names the URL and 503. *)
Lemma getResponseFromMetadata_failure_witness :
  ∃ msg,
    (getResponseFromMetadata (H := unavailable_host)
       defaultMetadataFolderURL initial_world).1 = Err msg
    ∧ includes msg defaultMetadataFolderURL ∧ includes msg "503".
Proof.
  destruct (getResponseFromMetadata_failure (H := unavailable_host)
              defaultMetadataFolderURL initial_world
              (mkResponse 503 "503 Service Unavailable" (Ok "try later")))
    as [_ Hstatus].
  - reflexivity.
  - reflexivity.
  - apply (Hstatus "try later"); [reflexivity | simpl; lia].
Defined.

(** The endpoint [://bad] does not parse: nothing is sent. *)
Lemma Write_invalid_endpoint_witness :
  send (H := strict_steady_host) "batch" bad_endpoint_world
  = (Err "missing protocol scheme", bad_endpoint_world)
  ∧ events_of bad_endpoint_world
      (Write (H := strict_steady_host) [nan_metric _ _] bad_endpoint_world).2
    = [].
Proof.
  destruct (Write_invalid_endpoint (H := strict_steady_host)
              [nan_metric _ _] bad_endpoint_world "missing protocol scheme")
    as (Hsend & _ & Hevents & _).
  - reflexivity.
  - split; [apply Hsend | exact Hevents].
Defined.

(** The POST of a [send] with [t1] held carries [Bearer t1]. *)
Lemma send_post_request_witness :
  Header_Get
    (postRequest (plugin token_world) "batch" "t1") "Authorization"
  = Some ("Bearer " ++ iamToken
            (plugin (send (H := steady_host) "batch" token_world).2)).
Proof.
  destruct (send_post_request (H := steady_host) "batch" token_world
              (postRequest (plugin token_world) "batch" "t1")
              (Ok (mkResponse 200 "200 OK" (Ok EmptyString))))
    as (_ & _ & _ & Hauth & _).
  - vm_compute. left.
  - reflexivity.
  - exact Hauth.
Defined.

(** The value -1 has no encoding: [Write] fails before anything is sent. *)
Lemma Write_encoding_failure_witness :
  (Write (H := strict_steady_host) [nan_metric _ _] initial_world).1
  = Err "json: unsupported value: NaN"
  ∧ trace (Write (H := strict_steady_host) [nan_metric _ _] initial_world).2
    = [].
Proof.
  edestruct (Write_encoding_failure (H := strict_steady_host)
               [nan_metric _ _] initial_world)
    as (HW & _).
  - reflexivity.
  - reflexivity.
  - rewrite HW. split; reflexivity.
Defined.

(** The body of the POST for the [cpu] metric: the member [metrics] is
    the array of the encodings of the points [cpu_usage_idle] and
    [cpu_usage_user]. *)
Lemma Write_body_shape_witness :
  let sent := List.last
                (trace (Write (H := steady_host) [cpu_metric _ _]
                          token_world).2)
                (metadataRequest EmptyString, Err EmptyString) in
  ∃ ps elements,
    Name (H := steady_host) <$> ps = ["cpu_usage_idle"; "cpu_usage_user"]
    ∧ Forall2 (λ p element, json_metric (H := steady_host) p = Ok element)
        ps elements
    ∧ req_Body sent.1
      = ("{" ++ (dquote ++ "metrics" ++ dquote ++ ":"
                 ++ ("[" ++ String.concat "," elements ++ "]")) ++ "}")
        ++ newline.
Proof.
  intros sent.
  destruct (Write_body_shape (H := steady_host) [cpu_metric _ _] token_world
              sent.1 sent.2)
    as (points & w0 & value & _ & Hnames & _ & Hbody & Hvalue).
  - vm_compute. left.
  - reflexivity.
  - destruct points as [ps|]; [|discriminate Hnames].
    destruct Hvalue as (elements & Hall & ->).
    exists ps, elements. split; [exact Hnames|]. split; [exact Hall|].
    exact Hbody.
Defined.

(** [t1] is accepted for 3600 s at 1000 s: a world holding the credential
    and reading 4600 s needs no refresh. *)
Lemma send_caching_window_witness :
  ¬ needs_refresh (H := expiry_host)
      (send (H := expiry_host) "batch" initial_world).2.
Proof.
  unshelve epose proof
    (send_caching_window (H := expiry_host) "batch" initial_world "t1" 3600
       (getIAMTokenFromMetadata (H := expiry_host)
          (time_Now (H := expiry_host) initial_world).2).2
       _ _ _ _
       (send (H := expiry_host) "batch" initial_world).2 "next" _)
    as [Hiff _].
  - reflexivity.
  - left. reflexivity.
  - reflexivity.
  - lia.
  - reflexivity.
  - rewrite Hiff. vm_compute. discriminate.
Defined.

(** [t1] is accepted with the lifetime -1 at 1000 s: the world after the
    [send] needs a refresh again. *)
Lemma negative_lifetime_never_reused_witness :
  needs_refresh (H := negative_host)
    (send (H := negative_host) "batch" initial_world).2.
Proof.
  unshelve epose proof
    (negative_lifetime_never_reused (H := negative_host)
       "batch" initial_world "t1" (-1)
       (getIAMTokenFromMetadata (H := negative_host)
          (time_Now (H := negative_host) initial_world).2).2
       _ _ _ _)
    as (_ & _ & Hagain).
  - reflexivity.
  - left. reflexivity.
  - reflexivity.
  - lia.
  - apply Hagain; [reflexivity | vm_compute; discriminate].
Defined.

(** A plugin fresh from the registry: [Init], [Connect] and two
    publishes fetch the folder URL once. *)
Lemma registered_plugin_fetches_folderID_once_witness :
  let w1 := (Connect (H := steady_host) (Init registered_world).2).2 in
  let w2 := run_writes (H := steady_host)
              [[cpu_metric _ _]; [text_metric _ _]] w1 in
  folderID (plugin w2) = "b1gfolder"
  ∧ count_calls "GET" defaultMetadataFolderURL (events_of registered_world w2)
    = 1%nat.
Proof.
  edestruct (registered_plugin_fetches_folderID_once (H := steady_host)
               0 EmptyString EmptyString registered_world
               (Connect (H := steady_host) (Init registered_world).2).2
               [[cpu_metric _ _]; [text_metric _ _]])
    as (_ & _ & _ & Hid & Honce).
  - reflexivity.
  - by vm_compute.
  - split; [rewrite Hid; reflexivity | exact Honce].
Defined.

(** The keys of the labels of [cpu{host=vm1,name=core0}]. *)
Lemma replaceReservedTagNames_dom_witness :
  dom (replaceReservedTagNames (map_to_list cpu_tags))
  = (set_map label_key (dom cpu_tags) : gset string).
Proof.
  apply (replaceReservedTagNames_dom cpu_tags). unfold range_of. reflexivity.
Defined.

Lemma replaceReservedTagNames_rename_witness :
  replaceReservedTagNames (map_to_list cpu_tags) = renamed cpu_tags "core0".
Proof.
  apply (replaceReservedTagNames_rename cpu_tags (map_to_list cpu_tags)).
  - unfold range_of. reflexivity.
  - intros v1 v2 _ Hnone. discriminate Hnone.
Defined.

(** The two orders of [{name: core0, _name: legacy}] give two outputs. *)
Lemma replaceReservedTagNames_last_wins_witness :
  replaceReservedTagNames [("name", "core0"); ("_name", "legacy")] !! "_name"
  = Some "legacy"
  ∧ replaceReservedTagNames [("_name", "legacy"); ("name", "core0")] !! "_name"
    = Some "core0".
Proof.
  destruct (replaceReservedTagNames_last_wins colliding_tags [] [] []
              "core0" "legacy") as [Hfirst Hsecond].
  split.
  - apply Hfirst. unfold range_of. vm_compute map_to_list.
    apply Permutation_swap.
  - apply Hsecond. unfold range_of. vm_compute map_to_list. reflexivity.
Defined.
